(** * Global-ID: versionable, type-tagged identifiers

    A shallow embedding of [src/lib/global-id.ts] (the current revision, with
    the parser-driven [Encoder]) and the properties of its registries and of
    its encode/decode pipeline.

    Modelling conventions.
    - A JavaScript string is a [string]: well-formed text, given by the
      bytes of its UTF-8 form, which is also what the binary codec stores for
      a text string.  The separator and the base64 alphabet are ASCII, so
      splitting and substitution act on these bytes as they do on the
      characters.
    - A [Map<string, X>] is a finite map ([gmap string X]).  A
      [Record<string, X>] is a plain object: its own properties are a finite
      map, and a lookup that finds no own property goes on to
      [Object.prototype], whose members every key of that name reaches
      ([constructor], [toString], [__proto__], ...).
    - [throw new Error(...)] is the [Err] result; each throw site is given the
      error kind the specification uses for it.  A [TypeError] of the
      runtime is an [Err] as well.
    - The [TypeRegistry] object is shared: the [ParserRegistry], the [Encoder]
      and the [Decoder] all hold a reference to the same one, as in the
      repository's tests.  The heap is therefore one record, [Registries]. *)

From Stdlib Require Import ZArith NArith Ascii String List Lia.
From Stdlib.Strings Require Import Byte.
From stdpp Require Import base option list strings gmap fin_maps.
Import ListNotations.

(** ** Errors and results *)

(** The error kinds, by throw site:
    - [DuplicateRegistration]: "Type or prefix is already registered."
    - [UnknownType]: "Type ... is not registered in the TypeRegistry."
      (registerParser) and "No parsers registered for type ..." (getParser)
    - [UnknownVersion]: "No parser registered for type ... and version ..."
    - [UnregisteredType]: "Type ... is not registered." (encode) and
      "Prefix ... is not registered in the TypeRegistry." (decode)
    - [NullValue]: "Value is not defined."
    - [MalformedPayload]: errors raised while reading the payload: the codec
      rejecting the bytes, or a [TypeError] from taking the envelope apart
    - [ParserFailure]: an exception thrown by a caller-supplied parser
    - [TypeError]: "... .set is not a function" and "... .get is not a
      function", where the parser table of a type is a member inherited from
      [Object.prototype]. *)
Inductive Error : Set :=
| DuplicateRegistration
| UnknownType
| UnknownVersion
| UnregisteredType
| NullValue
| MalformedPayload
| ParserFailure
| TypeError.

Inductive result (A : Type) : Type :=
| Ok (a : A)
| Err (e : Error).
Arguments Ok {A} a.
Arguments Err {A} e.

#[global] Instance result_ret : MRet result := fun _ a => Ok a.
#[global] Instance result_bind : MBind result := fun _ _ f m =>
  match m with
  | Ok a => f a
  | Err e => Err e
  end.

(** A call of a caller-supplied function that may throw. *)
Definition orThrow {A} (e : Error) (o : option A) : result A :=
  match o with
  | Some a => Ok a
  | None => Err e
  end.

(** ** JavaScript values *)

(** The values a payload, a formatted payload or a decoded envelope can be.
    Numbers are the integers and [NaN]. *)
#[warnings="-register-all"]
Inductive Value : Type :=
| VUndefined
| VNull
| VBool (b : bool)
| VNum (z : Z)
| VNaN
| VStr (s : string)
| VBytes (b : list byte)
| VArr (items : list Value)
| VObj (fields : list (string * Value)).

(** [!!x] in JavaScript: [undefined], [null], [false], [0], [NaN] and the
    empty string are falsy, everything else (objects included) is truthy. *)
Definition truthy (v : Value) : bool :=
  match v with
  | VUndefined | VNull | VNaN => false
  | VBool b => b
  | VNum z => negb (z =? 0)%Z
  | VStr s => negb (String.eqb s "")
  | VBytes _ | VArr _ | VObj _ => true
  end.

(** ** Plain objects used as tables

    [{}] inherits from [Object.prototype].  A key that is no own property
    and is one of these names finds the inherited member: a function, or for
    [__proto__] the prototype object itself. *)

Definition inheritedNames : list string :=
  ["constructor"; "__proto__"; "hasOwnProperty"; "isPrototypeOf";
   "propertyIsEnumerable"; "toLocaleString"; "toString"; "valueOf";
   "__defineGetter__"; "__defineSetter__"; "__lookupGetter__";
   "__lookupSetter__"].

Definition inherited (key : string) : bool :=
  existsb (String.eqb key) inheritedNames.

(** What [object[key]] is, for an object whose own properties are strings:
    the own property, the member inherited under that name, or
    [undefined]. *)
Inductive Lookup : Type :=
| Own (s : string)
| Member (name : string)
| Missing.

Definition property (own : gmap string string) (key : string) : Lookup :=
  match own !! key with
  | Some s => Own s
  | None => if inherited key then Member key else Missing
  end.

(** [!!x] for a lookup: functions and objects are truthy. *)
Definition found (x : Lookup) : bool :=
  match x with
  | Own s => truthy (VStr s)
  | Member _ => true
  | Missing => false
  end.

(** The string a member turns into, as a property key or in a template
    literal: the source text of a built-in function, and [[object Object]]
    for the prototype object. *)
Definition memberText (name : string) : string :=
  if String.eqb name "__proto__" then "[object Object]"
  else "function "
       +:+ (if String.eqb name "constructor" then "Object" else name)
       +:+ "() { [native code] }".

(** [String(x)] for a lookup that was found. *)
Definition toText (x : Lookup) : string :=
  match x with
  | Own s => s
  | Member name => memberText name
  | Missing => "undefined"
  end.

(** ** GlobalId and parsers *)

Record GlobalId : Type := mkGlobalId {
  getType : string;
  getVersion : string;
  getValue : Value
}.

(** [IParser]: [None] is a thrown exception.  The parameter and result
    types of the interface are not checked when the code runs, so both
    functions take and return values of any kind. *)
Record IParser : Type := mkParser {
  parse : Value -> option Value;
  format : Value -> option Value
}.

Definition StringParser : IParser := {|
  parse := fun value => Some value;
  format := fun value => Some value
|}.

(** ** TypeRegistry *)

Module TypeRegistry.

Record t : Type := mk {
  typeMap : gmap string string;
  prefixMap : gmap string string
}.

Definition empty : t := mk ∅ ∅.

(** The maps hold the own properties of the two objects. *)
Definition getPrefix (r : t) (type : string) : Lookup :=
  property (typeMap r) type.

Definition getType (r : t) (prefix : string) : Lookup :=
  property (prefixMap r) prefix.

(** The two assignments are reached only with keys that are no inherited
    names, or that an own property already shadows: they write own
    properties. *)
Definition registerType (type prefix : string) (r : t) : result t :=
  if found (property (typeMap r) type)
     || found (property (prefixMap r) prefix)
  then Err DuplicateRegistration
  else Ok {| typeMap := <[type := prefix]> (typeMap r);
             prefixMap := <[prefix := type]> (prefixMap r) |}.

End TypeRegistry.

(** ** The heap: the shared TypeRegistry and the ParserRegistry's table *)

Record Registries : Type := mkRegistries {
  typeRegistry : TypeRegistry.t;
  parsers : gmap string (gmap string IParser)
}.

Definition noRegistrations : Registries :=
  mkRegistries TypeRegistry.empty ∅.

(** [typeRegistry.registerType] on the shared registry. *)
Definition registerType (type prefix : string) (st : Registries)
  : result Registries :=
  r ← TypeRegistry.registerType type prefix (typeRegistry st);
  Ok (mkRegistries r (parsers st)).

Module ParserRegistry.

(** [Map.prototype.get] on a map whose keys are all strings: a key that is
    not a string is never found. *)
Definition Map_get (m : gmap string IParser) (key : Value) : option IParser :=
  match key with
  | VStr k => m !! k
  | _ => None
  end.

(** [parsers] holds the own properties of [this.parsers].  Where [type]
    is no own property but an inherited name, [this.parsers[type]] is the
    inherited member: no [Map] is created, and the member has no [set]. *)
Definition registerParser (type version : string) (parser : IParser)
    (st : Registries) : result Registries :=
  if negb (found (TypeRegistry.getType (typeRegistry st) type))
  then Err UnknownType
  else
    match parsers st !! type with
    | Some versionedParsers =>
        Ok (mkRegistries (typeRegistry st)
              (<[type := <[version := parser]> versionedParsers]> (parsers st)))
    | None =>
        if inherited type then Err TypeError
        else
          Ok (mkRegistries (typeRegistry st)
                (<[type := <[version := parser]> ∅]> (parsers st)))
    end.

(** [version] is a [Value]: the decoder passes what it found in the
    envelope.  [type] is the property key, a string by then.  An inherited
    member passes the test of [versionedParsers] and has no [get]. *)
Definition getParser (st : Registries) (type : string) (version : Value)
    : result IParser :=
  match parsers st !! type with
  | None => if inherited type then Err TypeError else Err UnknownType
  | Some versionedParsers =>
      match Map_get versionedParsers version with
      | None => Err UnknownVersion
      | Some parser => Ok parser
      end
  end.

End ParserRegistry.

(** The parser stored under [(type, version)], if any. *)
Definition stored (st : Registries) (type version : string) : option IParser :=
  parsers st !! type ≫= fun versionedParsers => versionedParsers !! version.

(** The registry states a program can build: from no registrations, by
    calls of [registerType] and [registerParser] that return normally (a call
    that throws leaves the state as it was). *)
Inductive reachable : Registries -> Prop :=
| reach_init : reachable noRegistrations
| reach_registerType st st' type prefix :
    reachable st ->
    registerType type prefix st = Ok st' ->
    reachable st'
| reach_registerParser st st' type version parser :
    reachable st ->
    ParserRegistry.registerParser type version parser st = Ok st' ->
    reachable st'.

(** ** Strings *)

(** [s.replace(/c/g, d)] for single characters [c] and [d]. *)
Definition substitute (c d x : ascii) : ascii :=
  if Ascii.eqb x c then d else x.
Arguments substitute c d x : simpl nomatch.

Fixpoint replaceAll (c d : ascii) (s : string) : string :=
  match s with
  | EmptyString => EmptyString
  | String x r => String (substitute c d x) (replaceAll c d r)
  end.

(** [s.replace(/c+$/, '')]: drops the run of [c] at the end of [s]. *)
Fixpoint stripTrailing (c : ascii) (s : string) : string :=
  match s with
  | EmptyString => EmptyString
  | String x r =>
      match stripTrailing c r with
      | EmptyString => if Ascii.eqb x c then EmptyString else String x EmptyString
      | r' => String x r'
      end
  end.

(** [s.indexOf(c)], with [None] for [-1]. *)
Fixpoint indexOf (c : ascii) (s : string) : option nat :=
  match s with
  | EmptyString => None
  | String x r => if Ascii.eqb x c then Some 0 else S <$> indexOf c r
  end.

(** [s.slice(0, n)] and [s.slice(n)] for [0 <= n]. *)
Fixpoint sliceTo (n : nat) (s : string) : string :=
  match n, s with
  | S n', String x r => String x (sliceTo n' r)
  | _, _ => EmptyString
  end.

Fixpoint sliceFrom (n : nat) (s : string) : string :=
  match n, s with
  | S n', String _ r => sliceFrom n' r
  | _, _ => s
  end.

(** ** Base64, as [Buffer.toString('base64')] and [Buffer.from(s, 'base64')]

    These are platform functions, not code of the repository; they are
    modelled from RFC 4648 and from Node's decoder, which never throws: it
    accepts both the standard and the URL-safe alphabet, skips every other
    character and stops at the first [=]. *)

Local Open Scope N_scope.

Definition byteN (n : N) : byte := default x00 (Byte.of_N (n mod 256)).

Definition b64alphabet : string :=
  "ABCDEFGHIJKLMNOPQRSTUVWXYZabcdefghijklmnopqrstuvwxyz0123456789+/".

Definition b64char (n : N) : ascii :=
  default "="%char (String.get (N.to_nat n) b64alphabet).

Definition unbase64 (c : ascii) : option N :=
  let n := N_of_ascii c in
  if (65 <=? n) && (n <=? 90) then Some (n - 65)
  else if (97 <=? n) && (n <=? 122) then Some (n - 71)
  else if (48 <=? n) && (n <=? 57) then Some (n + 4)
  else if (n =? 43) || (n =? 45) then Some 62
  else if (n =? 47) || (n =? 95) then Some 63
  else None.

Fixpoint toBase64 (buffer : list byte) : string :=
  match buffer with
  | [] => EmptyString
  | [a] =>
      let a := Byte.to_N a in
      String (b64char (a / 4)) (String (b64char (a mod 4 * 16)) "==")
  | [a; b] =>
      let a := Byte.to_N a in
      let b := Byte.to_N b in
      String (b64char (a / 4))
        (String (b64char (a mod 4 * 16 + b / 16))
           (String (b64char (b mod 16 * 4)) "="))
  | a :: b :: c :: rest =>
      let a := Byte.to_N a in
      let b := Byte.to_N b in
      let c := Byte.to_N c in
      String (b64char (a / 4))
        (String (b64char (a mod 4 * 16 + b / 16))
           (String (b64char (b mod 16 * 4 + c / 64))
              (String (b64char (c mod 64)) (toBase64 rest))))
  end.

(** The 6-bit groups read from [s]. *)
Fixpoint sextets (s : string) : list N :=
  match s with
  | EmptyString => []
  | String c r =>
      if Ascii.eqb c "=" then []
      else match unbase64 c with
           | Some n => n :: sextets r
           | None => sextets r
           end
  end.

Fixpoint bytesOfSextets (l : list N) : list byte :=
  match l with
  | s1 :: s2 :: s3 :: s4 :: rest =>
      byteN (s1 * 4 + s2 / 16) :: byteN (s2 mod 16 * 16 + s3 / 4)
        :: byteN (s3 mod 4 * 64 + s4) :: bytesOfSextets rest
  | [s1; s2; s3] =>
      [byteN (s1 * 4 + s2 / 16); byteN (s2 mod 16 * 16 + s3 / 4)]
  | [s1; s2] => [byteN (s1 * 4 + s2 / 16)]
  | _ => []
  end.

Definition Buffer_from_base64 (s : string) : list byte :=
  bytesOfSextets (sextets s).

(** ** The binary codec, as [encode] and [decode] of [cbor-x]

    The package is not part of the repository.  Its encoder is modelled on
    the values of [Value]: integers from -2^31 to 2^32 - 1 with the shortest
    head, strings, arrays, [false], [true], [null], [undefined]; an object as
    a map whose head always has a 16-bit count ([b9]), as the package writes
    it; [NaN] as a 64-bit float; a [Buffer] as a byte string.  Its decoder is
    modelled from RFC 8949 on definite-length data items: integers, byte and
    text strings, arrays, maps with text keys and the four simple values.
    The package reads more than that (tags, floats, indefinite lengths,
    8-byte arguments, text that is not well-formed UTF-8, which it repairs):
    on such bytes [cborDecode] answers [None] or keeps the text as it is, and
    says nothing about the package.  The properties below rely on
    [cborDecode] only for bytes inside the fragment: the items [cborEncode]
    writes for [codable] values, and their truncated and over-long copies,
    which the package rejects as well ("Unexpected end of CBOR data", "Data
    read, but end of buffer not reached"). *)

(** The low [k] bytes of [n], big-endian. *)
Fixpoint be (k : nat) (n : N) : list byte :=
  match k with
  | O => []
  | S k' => byteN (n / 256 ^ N.of_nat k') :: be k' n
  end.

(** The head of a data item: major type and argument. *)
Definition head (major arg : N) : list byte :=
  if arg <? 24 then [byteN (major * 32 + arg)]
  else if arg <? 256 then byteN (major * 32 + 24) :: be 1 arg
  else if arg <? 65536 then byteN (major * 32 + 25) :: be 2 arg
  else if arg <? 4294967296 then byteN (major * 32 + 26) :: be 4 arg
  else byteN (major * 32 + 27) :: be 8 arg.

Definition encodeText (s : string) : list byte :=
  head 3 (N.of_nat (String.length s)) ++ list_byte_of_string s.

Fixpoint cborEncode (v : Value) : list byte :=
  match v with
  | VUndefined => [xf7]
  | VNull => [xf6]
  | VBool false => [xf4]
  | VBool true => [xf5]
  | VNum z =>
      if (0 <=? z)%Z then head 0 (Z.to_N z) else head 1 (Z.to_N (- 1 - z))
  | VNaN => [xfb; x7f; xf8; x00; x00; x00; x00; x00; x00]
  | VStr s => encodeText s
  | VBytes b => head 2 (N.of_nat (length b)) ++ b
  | VArr items =>
      head 4 (N.of_nat (length items)) ++ flat_map cborEncode items
  | VObj fields =>
      xb9 :: be 2 (N.of_nat (length fields))
        ++ flat_map (fun kv => let '(k, x) := kv in encodeText k ++ cborEncode x)
             fields
  end.

(** Reads [k] bytes as a big-endian number. *)
Fixpoint readBE (k : nat) (acc : N) (bs : list byte) : option (N * list byte) :=
  match k with
  | O => Some (acc, bs)
  | S k' =>
      match bs with
      | [] => None
      | b :: rest => readBE k' (acc * 256 + Byte.to_N b) rest
      end
  end.

Definition readHead (bs : list byte) : option (N * N * list byte) :=
  match bs with
  | [] => None
  | ib :: rest =>
      let major := Byte.to_N ib / 32 in
      let info := Byte.to_N ib mod 32 in
      if info <? 24 then Some (major, info, rest)
      else
        '(arg, rest') ← (if info =? 24 then readBE 1 0 rest
                         else if info =? 25 then readBE 2 0 rest
                         else if info =? 26 then readBE 4 0 rest
                         else None);
        Some (major, arg, rest')
  end.

(** [n] bytes off the front, if there are that many. *)
Definition readBytes (n : N) (bs : list byte) : option (list byte * list byte) :=
  if n <=? N.of_nat (length bs)
  then Some (take (N.to_nat n) bs, drop (N.to_nat n) bs)
  else None.

(** The simple values of major type 7. *)
Definition simpleValue (arg : N) : option Value :=
  match arg with
  | 20 => Some (VBool false)
  | 21 => Some (VBool true)
  | 22 => Some VNull
  | 23 => Some VUndefined
  | _ => None
  end.

(** One data item off the front of [bs], and what follows it.  [fuel]
    bounds the number of nested and successive items visited. *)
Fixpoint readItem (fuel : nat) (bs : list byte) {struct fuel}
    : option (Value * list byte) :=
  match fuel with
  | O => None
  | S fuel' =>
      '(major, arg, rest) ← readHead bs;
      match major with
      | 0 => Some (VNum (Z.of_N arg), rest)
      | 1 => Some (VNum (- 1 - Z.of_N arg)%Z, rest)
      | 2 => '(b, rest') ← readBytes arg rest; Some (VBytes b, rest')
      | 3 =>
          '(b, rest') ← readBytes arg rest;
          Some (VStr (string_of_list_byte b), rest')
      | 4 => '(items, rest') ← readItems fuel' arg rest; Some (VArr items, rest')
      | 5 => '(fields, rest') ← readFields fuel' arg rest; Some (VObj fields, rest')
      | 7 => v ← simpleValue arg; Some (v, rest)
      | _ => None
      end
  end
with readItems (fuel : nat) (n : N) (bs : list byte) {struct fuel}
    : option (list Value * list byte) :=
  if n =? 0 then Some ([], bs)
  else
    match fuel with
    | O => None
    | S fuel' =>
        '(x, rest) ← readItem fuel' bs;
        '(xs, rest') ← readItems fuel' (n - 1) rest;
        Some (x :: xs, rest')
    end
with readFields (fuel : nat) (n : N) (bs : list byte) {struct fuel}
    : option (list (string * Value) * list byte) :=
  if n =? 0 then Some ([], bs)
  else
    match fuel with
    | O => None
    | S fuel' =>
        '(k, rest) ← readItem fuel' bs;
        match k with
        | VStr key =>
            '(x, rest') ← readItem fuel' rest;
            '(fs, rest'') ← readFields fuel' (n - 1) rest';
            Some ((key, x) :: fs, rest'')
        | _ => None
        end
    end.

(** [decode(buffer)]: exactly one data item; bytes left over are an error
    ("Data read, but end of buffer not reached"). *)
Definition cborDecode (buffer : list byte) : option Value :=
  match readItem (2 * length buffer + 2) buffer with
  | Some (v, []) => Some v
  | _ => None
  end.

Local Close Scope N_scope.

(** ** Encoder *)

Module Encoder.

(** [typePrefix] is what the lookup found: the registered prefix, or a
    member inherited under the type's name.  As the key of the parser table
    and in the returned template literal it is turned into a string. *)
Definition encode (st : Registries) (id : GlobalId) : result string :=
  let typePrefix := TypeRegistry.getPrefix (typeRegistry st) (getType id) in
  if negb (found typePrefix) then Err UnregisteredType
  else if negb (truthy (getValue id)) then Err NullValue
  else
    parser ← ParserRegistry.getParser st (toText typePrefix)
               (VStr (getVersion id));
    formattedValue ← orThrow ParserFailure (format parser (getValue id));
    let payload := VArr [formattedValue; VStr (getVersion id)] in
    let compressedPayload := cborEncode payload in
    let base64EncodedPayload := toBase64 compressedPayload in
    let sanitizedBase64EncodedPayload :=
      stripTrailing "="
        (replaceAll "/" "_" (replaceAll "+" "-" base64EncodedPayload)) in
    Ok (toText typePrefix +:+ "_" +:+ sanitizedBase64EncodedPayload).

End Encoder.

(** ** Decoder *)

Module Decoder.

Definition splitByFirstOccurrence (input : string) (separator : ascii)
    : list string :=
  match indexOf separator input with
  | None => [input]
  | Some separatorIndex =>
      [sliceTo separatorIndex input; sliceFrom (separatorIndex + 1) input]
  end.

(** [while (s.length % 4) s += '=']; the loop body runs at most three
    times, see [pad_exits]. *)
Fixpoint pad (fuel : nat) (s : string) : string :=
  if String.length s mod 4 =? 0 then s
  else match fuel with
       | O => s
       | S fuel' => pad fuel' (s +:+ "=")
       end.

(** The number of bytes of the UTF-8 sequence that starts with [c]. *)
Definition sequenceLength (c : ascii) : nat :=
  let n := N_of_ascii c in
  if (n <? 192)%N then 1
  else if (n <? 224)%N then 2
  else if (n <? 240)%N then 3
  else 4.

(** The first code point of [s] and the rest of [s]: one step of the
    iterator of a string. *)
Definition nextCodePoint (s : string) : option (string * string) :=
  match s with
  | EmptyString => None
  | String c _ =>
      Some (sliceTo (sequenceLength c) s, sliceFrom (sequenceLength c) s)
  end.

(** [const [data, version] = decoded]: arrays, strings and byte arrays
    are iterable, a string by code points; a missing element is
    [undefined]; anything else raises a [TypeError]. *)
Definition destructure (decoded : Value) : option (Value * Value) :=
  match decoded with
  | VArr items => Some (nth 0 items VUndefined, nth 1 items VUndefined)
  | VStr s =>
      match nextCodePoint s with
      | None => Some (VUndefined, VUndefined)
      | Some (first, rest) =>
          Some (VStr first,
                from_option (fun second => VStr second.1) VUndefined
                  (nextCodePoint rest))
      end
  | VBytes b =>
      let at_ i := from_option (fun x => VNum (Z.of_N (Byte.to_N x)))
                     VUndefined (b !! i) in
      Some (at_ 0, at_ 1)
  | _ => None
  end.

(** The version of the decoded identifier; it is a string whenever
    [getParser] has found a parser for it. *)
Definition stringOf (v : Value) : string :=
  match v with
  | VStr s => s
  | _ => EmptyString
  end.

(** The lookup of [typePrefix] comes last.  The type of the returned
    identifier is what the lookup found: the registered type name.  (Were it
    an inherited member, the identifier is given the member's text; no
    sequence of registrations leads there, since [getParser] has failed
    before for such a prefix.) *)
Definition decode (st : Registries) (encodedId : string) : result GlobalId :=
  match splitByFirstOccurrence encodedId "_" with
  | typePrefix :: encodedPayload :: _ =>
      let paddedEncodedPayload :=
        pad 3 (replaceAll "_" "/" (replaceAll "-" "+" encodedPayload)) in
      let encodedPayloadBuffer := Buffer_from_base64 paddedEncodedPayload in
      decoded ← orThrow MalformedPayload (cborDecode encodedPayloadBuffer);
      '(data, version) ← orThrow MalformedPayload (destructure decoded);
      parser ← ParserRegistry.getParser st typePrefix version;
      parsedValue ← orThrow ParserFailure (parse parser data);
      let parsedType := TypeRegistry.getType (typeRegistry st) typePrefix in
      if negb (found parsedType) then Err UnregisteredType
      else Ok (mkGlobalId (toText parsedType) (stringOf version) parsedValue)
  | _ => Err MalformedPayload
  end.

End Decoder.

(** The bytes the decoder reads from the payload segment of an encoded
    identifier. *)
Definition payloadBuffer (encodedPayload : string) : list byte :=
  Buffer_from_base64
    (Decoder.pad 3 (replaceAll "_" "/" (replaceAll "-" "+" encodedPayload))).

(** ** The registries of the test suite *)

Definition organizationRegistries : Registries := {|
  typeRegistry := {| TypeRegistry.typeMap := {[ "Organization" := "org" ]};
                     TypeRegistry.prefixMap := {[ "org" := "Organization" ]} |};
  parsers := {[ "org" := {[ "1.0.0" := StringParser ]} ]}
|}.

(** The state built by the tests' [beforeEach], with [StringParser] as the
    parser. *)
Definition organizationSetup : result Registries :=
  st ← registerType "Organization" "org" noRegistrations;
  ParserRegistry.registerParser "org" "1.0.0" StringParser st.

(** The same, before the parser is registered. *)
Definition organizationTypeOnly : Registries := {|
  typeRegistry := typeRegistry organizationRegistries;
  parsers := ∅
|}.

(** After [registerType("", "p")]: a type whose name is the empty string. *)
Definition emptyNameRegistries : Registries := {|
  typeRegistry := {| TypeRegistry.typeMap := {[ "" := "p" ]};
                     TypeRegistry.prefixMap := {[ "p" := "" ]} |};
  parsers := ∅
|}.

(** After [registerType("T", "")]: a type whose prefix is the empty
    string. *)
Definition emptyPrefixRegistries : Registries := {|
  typeRegistry := {| TypeRegistry.typeMap := {[ "T" := "" ]};
                     TypeRegistry.prefixMap := {[ "" := "T" ]} |};
  parsers := ∅
|}.

(** A type registered under a prefix that contains the separator. *)
Definition underscoreRegistries : Registries := {|
  typeRegistry := {| TypeRegistry.typeMap := {[ "Organization" := "o_g" ]};
                     TypeRegistry.prefixMap := {[ "o_g" := "Organization" ]} |};
  parsers := {[ "o_g" := {[ "1.0.0" := StringParser ]} ]}
|}.

(** The type [X] registered under the prefix [[object Object]], with a
    parser: the state after [registerType("X", "[object Object]")] and
    [registerParser("[object Object]", "1.0.0", new StringParser())]. *)
Definition objectPrefixRegistries : Registries := {|
  typeRegistry :=
    {| TypeRegistry.typeMap := {[ "X" := "[object Object]" ]};
       TypeRegistry.prefixMap := {[ "[object Object]" := "X" ]} |};
  parsers := {[ "[object Object]" := {[ "1.0.0" := StringParser ]} ]}
|}.

(** Two types under one prefix: the state after [registerType("", "p")],
    [registerType("B", "p")] and
    [registerParser("p", "1.0.0", new StringParser())]. *)
Definition sharedPrefixRegistries : Registries := {|
  typeRegistry :=
    {| TypeRegistry.typeMap := {[ "" := "p"; "B" := "p" ]};
       TypeRegistry.prefixMap := {[ "p" := "B" ]} |};
  parsers := {[ "p" := {[ "1.0.0" := StringParser ]} ]}
|}.

(** A parser whose functions throw. *)
Definition throwingParser : IParser := {|
  parse := fun _ => None;
  format := fun _ => None
|}.

(** The tests' type, with that parser. *)
Definition throwingRegistries : Registries := {|
  typeRegistry := typeRegistry organizationRegistries;
  parsers := {[ "org" := {[ "1.0.0" := throwingParser ]} ]}
|}.

(** [decode(encode(id))] returns [id]. *)
Definition roundTrips (st : Registries) (id : GlobalId) : Prop :=
  exists encoded,
    Encoder.encode st id = Ok encoded /\ Decoder.decode st encoded = Ok id.

(** ** Invariants of the reachable states *)

(** Every prefix that has a parser table resolves to a non-empty type
    name. *)
Definition parsersBacked (st : Registries) : Prop :=
  forall prefix versionedParsers,
    parsers st !! prefix = Some versionedParsers ->
    exists type,
      TypeRegistry.getType (typeRegistry st) prefix = Own type /\
      type <> EmptyString.

(** No own property of the two tables of the TypeRegistry has an inherited
    name, and none holds one: a registration with such a name is refused. *)
Definition plainNames (st : Registries) : Prop :=
  (forall type prefix,
      TypeRegistry.getPrefix (typeRegistry st) type = Own prefix ->
      inherited type = false /\ inherited prefix = false) /\
  (forall prefix type,
      TypeRegistry.getType (typeRegistry st) prefix = Own type ->
      inherited prefix = false /\ inherited type = false).

(** A parser table is created by the call that puts its first parser in. *)
Definition parsersInhabited (st : Registries) : Prop :=
  forall prefix versionedParsers,
    parsers st !! prefix = Some versionedParsers ->
    exists version parser, versionedParsers !! version = Some parser.

(** The prefix of a type with a non-empty name resolves back to it. *)
Definition namedTypesMirrored (st : Registries) : Prop :=
  forall type prefix,
    TypeRegistry.getPrefix (typeRegistry st) type = Own prefix ->
    type <> EmptyString ->
    TypeRegistry.getType (typeRegistry st) prefix = Own type.

(** The TypeRegistry states built by registering only non-empty type names
    under non-empty prefixes. *)
Inductive registeredNamed : TypeRegistry.t -> Prop :=
| named_empty : registeredNamed TypeRegistry.empty
| named_register r r' type prefix :
    registeredNamed r ->
    type <> EmptyString ->
    prefix <> EmptyString ->
    TypeRegistry.registerType type prefix r = Ok r' ->
    registeredNamed r'.


(** ** Vocabulary of the codec lemmas *)

(** What the pipeline needs of a base64 digit [c]: it is read back as its
    own value, it is not the padding character, and the two substitutions
    of the encoder are undone by the two substitutions of the decoder. *)
Definition digitFacts (n : N) (c : ascii) : Prop :=
  let sanitized := substitute "/" "_" (substitute "+" "-" c) in
  unbase64 c = Some n /\
  Ascii.eqb c "=" = false /\
  Ascii.eqb sanitized "=" = false /\
  substitute "_" "/" (substitute "-" "+" sanitized) = c.

(** Enough fuel: what [fuel] reads, any amount of fuel of at least twice
    the number of bytes read (plus one, for a sequence) reads as well. *)
Definition adequate (fuel : nat) : Prop :=
  (forall bs v rest,
      readItem fuel bs = Some (v, rest) ->
      length rest < length bs /\
      forall fuel', 2 * (length bs - length rest) <= fuel' ->
                    readItem fuel' bs = Some (v, rest)) /\
  (forall n bs xs rest,
      readItems fuel n bs = Some (xs, rest) ->
      length rest <= length bs /\
      forall fuel', 2 * (length bs - length rest) + 1 <= fuel' ->
                    readItems fuel' n bs = Some (xs, rest)) /\
  (forall n bs fs rest,
      readFields fuel n bs = Some (fs, rest) ->
      length rest <= length bs /\
      forall fuel', 2 * (length bs - length rest) + 1 <= fuel' ->
                    readFields fuel' n bs = Some (fs, rest)).

(** ** Further vocabulary *)

(** [st'] is [st] after any number of registration calls that returned
    normally. *)
Inductive evolves : Registries -> Registries -> Prop :=
| evolves_refl st : evolves st st
| evolves_registerType st st' st'' type prefix :
    evolves st st' ->
    registerType type prefix st' = Ok st'' ->
    evolves st st''
| evolves_registerParser st st' st'' type version parser :
    evolves st st' ->
    ParserRegistry.registerParser type version parser st' = Ok st'' ->
    evolves st st''.

(** The characters of the URL-safe base64 alphabet: letters, digits, [-]
    and [_]. *)
Definition urlSafeChar (c : ascii) : bool :=
  let n := N_of_ascii c in
  ((65 <=? n) && (n <=? 90) || (97 <=? n) && (n <=? 122)
   || (48 <=? n) && (n <=? 57) || (n =? 45) || (n =? 95))%N.

Fixpoint allChars (p : ascii -> bool) (s : string) : bool :=
  match s with
  | EmptyString => true
  | String c r => p c && allChars p r
  end.

(** [k] copies of [c]. *)
Fixpoint copies (k : nat) (c : ascii) : string :=
  match k with
  | O => EmptyString
  | S k' => String c (copies k' c)
  end.

(** ** The browser branch of [toBase64]

    [uint8ArrayToBase64] builds a binary string, one character per byte,
    and hands it to [window.btoa], the platform's base64 of such a string. *)

Definition fromCharCode (b : byte) : string :=
  String (ascii_of_byte b) EmptyString.

Definition btoa (binary : string) : string :=
  toBase64 (list_byte_of_string binary).

Definition uint8ArrayToBase64 (buffer : list byte) : string :=
  let binary :=
    fold_left (fun binary b => binary +:+ fromCharCode b) buffer EmptyString in
  btoa binary.

(** ** The revision with Brotli compression

    The second text of [src/lib/global-id.ts] (from line 211 on) is the
    revision its own test file exercises: the encoder consults no parser, it
    writes the value itself into an object [{ value, _version }] and
    compresses the bytes; the decoder decompresses, reads the two properties
    and hands the value to the parser.  Its registries are the code modelled
    above, so [Registries] is reused; its [IParser] has [parse] only, and the
    [format] field plays no part here.

    [brotliCompressSync] and [brotliDecompressSync] are [zlib] functions; they
    are taken as they come, the second one throwing on bytes it cannot
    read. *)

Record Zlib : Type := mkZlib {
  brotliCompressSync : list byte -> list byte;
  brotliDecompressSync : list byte -> option (list byte)
}.

(** The own property [key] of an object built by assigning [fields] in
    order: the last assignment wins. *)
Fixpoint lastField (key : string) (fields : list (string * Value))
    : option Value :=
  match fields with
  | [] => None
  | (k, x) :: rest =>
      match lastField key rest with
      | Some y => Some y
      | None => if String.eqb k key then Some x else None
      end
  end.

(** [object.key] for a key that no prototype defines: a [TypeError] on
    [undefined] and [null], [undefined] where the property is missing. *)
Definition getProperty (object : Value) (key : string) : option Value :=
  match object with
  | VUndefined | VNull => None
  | VObj fields => Some (default VUndefined (lastField key fields))
  | _ => Some VUndefined
  end.

Module Compressed.

(** What [decode] returns: an object literal [{ type, version, value }]. *)
Record Decoded : Type := mkDecoded {
  type : string;
  version : string;
  value : Value
}.

Definition encode (zlib : Zlib) (st : Registries) (id : GlobalId)
    : result string :=
  let typePrefix := TypeRegistry.getPrefix (typeRegistry st) (getType id) in
  if negb (found typePrefix) then Err UnregisteredType
  else if negb (truthy (getValue id)) then Err NullValue
  else
    let valueWithVersion :=
      VObj [("value", getValue id); ("_version", VStr (getVersion id))] in
    let cborData := cborEncode valueWithVersion in
    let compressedValue := brotliCompressSync zlib cborData in
    let base64EncodedValue := toBase64 compressedValue in
    let sanitizedBase64EncodedValue :=
      stripTrailing "="
        (replaceAll "/" "_" (replaceAll "+" "-" base64EncodedValue)) in
    Ok (toText typePrefix +:+ "_" +:+ sanitizedBase64EncodedValue).

Definition decode (zlib : Zlib) (st : Registries) (encodedId : string)
    : result Decoded :=
  match Decoder.splitByFirstOccurrence encodedId "_" with
  | typePrefix :: encodedValue :: _ =>
      let paddedEncodedValue :=
        Decoder.pad 3 (replaceAll "_" "/" (replaceAll "-" "+" encodedValue)) in
      let encodedValueBuffer := Buffer_from_base64 paddedEncodedValue in
      decompressedData ←
        orThrow MalformedPayload (brotliDecompressSync zlib encodedValueBuffer);
      decodedData ← orThrow MalformedPayload (cborDecode decompressedData);
      version ← orThrow MalformedPayload (getProperty decodedData "_version");
      value ← orThrow MalformedPayload (getProperty decodedData "value");
      parser ← ParserRegistry.getParser st typePrefix version;
      parsedValue ← orThrow ParserFailure (parse parser value);
      let parsedType := TypeRegistry.getType (typeRegistry st) typePrefix in
      if negb (found parsedType) then Err UnregisteredType
      else
        Ok (mkDecoded (toText parsedType) (Decoder.stringOf version)
              parsedValue)
  | _ => Err MalformedPayload
  end.

End Compressed.

(** A stand-in for [zlib] that stores the bytes as they are. *)
Definition storingZlib : Zlib := {|
  brotliCompressSync := fun data => data;
  brotliDecompressSync := fun data => Some data
|}.

(** Well-formed UTF-8 (RFC 3629, no overlong forms, no surrogates, nothing
    above U+10FFFF): the bytes a JavaScript string without lone surrogates is
    written as, and the bytes the codec reads back as that string. *)
Definition continuation (n : N) : bool := ((128 <=? n) && (n <=? 191))%N.

Definition secondOfThree (lead n : N) : bool :=
  (if lead =? 224 then (160 <=? n) && (n <=? 191)
   else if lead =? 237 then (128 <=? n) && (n <=? 159)
   else continuation n)%N.

Definition secondOfFour (lead n : N) : bool :=
  (if lead =? 240 then (144 <=? n) && (n <=? 191)
   else if lead =? 244 then (128 <=? n) && (n <=? 143)
   else continuation n)%N.

Fixpoint wellFormed (s : string) : bool :=
  match s with
  | EmptyString => true
  | String c0 r0 =>
      let b0 := N_of_ascii c0 in
      if (b0 <? 128)%N then wellFormed r0
      else
        match r0 with
        | String c1 r1 =>
            let b1 := N_of_ascii c1 in
            if ((194 <=? b0) && (b0 <=? 223))%N
            then continuation b1 && wellFormed r1
            else
              match r1 with
              | String c2 r2 =>
                  let b2 := N_of_ascii c2 in
                  if ((224 <=? b0) && (b0 <=? 239))%N
                  then secondOfThree b0 b1 && continuation b2 && wellFormed r2
                  else
                    match r2 with
                    | String c3 r3 =>
                        ((240 <=? b0) && (b0 <=? 244))%N
                        && secondOfFour b0 b1 && continuation b2
                        && continuation (N_of_ascii c3) && wellFormed r3
                    | EmptyString => false
                    end
              | EmptyString => false
              end
        | EmptyString => false
        end
  end.

(** A string the codec writes with a head of at most four bytes of length
    and reads back as it is. *)
Definition codableText (s : string) : bool :=
  (N.of_nat (String.length s) <? 4294967296)%N && wellFormed s.

(** A key made of digits only.  An object enumerates its integer keys
    first, in ascending order, wherever they were written. *)
Definition numericKey (key : string) : bool :=
  negb (String.eqb key EmptyString)
  && allChars (fun c => (48 <=? N_of_ascii c)%N && (N_of_ascii c <=? 57)%N) key.

(** A key the codec writes and reads back as it is, in its place. *)
Definition codableKey (key : string) : bool :=
  codableText key && negb (String.eqb key "__proto__") && negb (numericKey key).

Fixpoint distinct (keys : list string) : bool :=
  match keys with
  | [] => true
  | key :: rest => negb (existsb (String.eqb key) rest) && distinct rest
  end.

(** Values that the codec writes and reads back as they are: [undefined],
    [null], booleans, integers from -2^31 to 2^32 - 1, well-formed strings,
    arrays of fewer than 2^32 elements, and objects of fewer than 2^16
    properties (the count is written in 16 bits), made of such values.  The
    keys of an object are distinct, none is [__proto__] (which the decoder
    renames) and none is a number, so that the order of [fields] is the
    order in which the object enumerates its properties.  The package
    round-trips more than these (floats, larger integers written as floats);
    [NaN] and byte arrays are left out here. *)
Fixpoint codable (v : Value) : bool :=
  match v with
  | VUndefined | VNull | VBool _ => true
  | VNum z => (-2147483648 <=? z)%Z && (z <? 4294967296)%Z
  | VNaN | VBytes _ => false
  | VStr s => codableText s
  | VArr items =>
      (N.of_nat (length items) <? 4294967296)%N && forallb codable items
  | VObj fields =>
      (N.of_nat (length fields) <? 65536)%N
      && distinct (map fst fields)
      && forallb (fun kv => let '(k, x) := kv in codableKey k && codable x)
           fields
  end.

(** The payload segment the encoder writes for the bytes [buffer]. *)
Definition payloadText (buffer : list byte) : string :=
  stripTrailing "=" (replaceAll "/" "_" (replaceAll "+" "-" (toBase64 buffer))).


(** * Properties *)

(** One step of the [result] monad. *)
Ltac run_result := cbn [mbind result_bind mret result_ret orThrow].

Ltac run_option := cbn [mbind option_bind mret option_ret].

(** ** Lookups *)

Lemma truthy_VStr (s : string) : truthy (VStr s) = true <-> s <> EmptyString.
Proof. destruct s; simpl; split; congruence. Qed.

Lemma property_Own own key s :
  property own key = Own s <-> own !! key = Some s.
Proof.
  unfold property. destruct (own !! key); [| destruct (inherited key)];
    split; congruence.
Qed.

Lemma property_Member own key name :
  property own key = Member name <->
  own !! key = None /\ inherited key = true /\ name = key.
Proof.
  unfold property. destruct (own !! key); [| destruct (inherited key)]; split;
    try discriminate; try (intros (? & ? & ?); congruence).
  intros [= <-]. auto.
Qed.

Lemma property_Missing own key :
  property own key = Missing <-> own !! key = None /\ inherited key = false.
Proof.
  unfold property. destruct (own !! key); [| destruct (inherited key)]; split;
    try discriminate; try (intros (? & ?); congruence).
  auto.
Qed.

Lemma property_insert_eq own key s : property (<[key := s]> own) key = Own s.
Proof. unfold property. rewrite lookup_insert_eq. reflexivity. Qed.

Lemma property_insert_ne own key k s :
  key <> k -> property (<[key := s]> own) k = property own k.
Proof.
  intros Hne. unfold property. rewrite lookup_insert_ne by assumption.
  reflexivity.
Qed.

(** A lookup is truthy when it finds a non-empty own string or an inherited
    member. *)
Lemma found_true (x : Lookup) :
  found x = true <->
  (exists s, x = Own s /\ s <> EmptyString) \/ (exists name, x = Member name).
Proof.
  destruct x as [s | name |]; cbn [found].
  - rewrite truthy_VStr. split.
    + intros Hs. left. eauto.
    + intros [(s' & [= <-] & Hs) | (name & [=])]. exact Hs.
  - split; [intros _; right; eauto | reflexivity].
  - split; [discriminate |].
    intros [(s & [=] & _) | (name & [=])].
Qed.

Lemma found_false (x : Lookup) :
  found x = false <-> x = Missing \/ x = Own EmptyString.
Proof.
  destruct x as [[| c s] | name |]; simpl; split; auto; try discriminate;
    intros [[=] | [=]].
Qed.

Lemma found_Own (s : string) : s <> EmptyString -> found (Own s) = true.
Proof. intros Hs. apply truthy_VStr. exact Hs. Qed.

(** ** Inversion of the registration calls *)

Lemma registerType_Ok type prefix st st' :
  registerType type prefix st = Ok st' ->
  found (TypeRegistry.getPrefix (typeRegistry st) type) = false /\
  found (TypeRegistry.getType (typeRegistry st) prefix) = false /\
  st' = {| typeRegistry :=
             {| TypeRegistry.typeMap :=
                  <[type := prefix]> (TypeRegistry.typeMap (typeRegistry st));
                TypeRegistry.prefixMap :=
                  <[prefix := type]> (TypeRegistry.prefixMap (typeRegistry st)) |};
           parsers := parsers st |}.
Proof.
  unfold registerType, TypeRegistry.registerType, TypeRegistry.getPrefix,
    TypeRegistry.getType.
  destruct (found (property (TypeRegistry.typeMap (typeRegistry st)) type));
    simpl; [discriminate |].
  destruct (found (property (TypeRegistry.prefixMap (typeRegistry st)) prefix));
    simpl; [discriminate |].
  intros [= <-]. auto.
Qed.

Lemma registerParser_Ok type version parser st st' :
  ParserRegistry.registerParser type version parser st = Ok st' ->
  found (TypeRegistry.getType (typeRegistry st) type) = true /\
  (parsers st !! type = None -> inherited type = false) /\
  st' = {| typeRegistry := typeRegistry st;
           parsers := <[type := <[version := parser]>
                                  (default ∅ (parsers st !! type))]>
                        (parsers st) |}.
Proof.
  unfold ParserRegistry.registerParser.
  destruct (found (TypeRegistry.getType (typeRegistry st) type));
    simpl; [| discriminate].
  destruct (parsers st !! type) as [m |]; simpl.
  - intros [= <-]. repeat split. discriminate.
  - destruct (inherited type); [discriminate |].
    intros [= <-]. auto.
Qed.

(** ** Invariants *)

Lemma reachable_plainNames st : reachable st -> plainNames st.
Proof.
  unfold plainNames, TypeRegistry.getPrefix, TypeRegistry.getType.
  induction 1 as [| st st' type prefix _ (IHt & IHp) Hcall
                  | st st' type version parser _ IH Hcall].
  - split; intros k v Hk; apply property_Own in Hk; simpl in Hk;
      rewrite lookup_empty in Hk; discriminate.
  - apply registerType_Ok in Hcall as (Htype & Hprefix & ->).
    unfold TypeRegistry.getPrefix, TypeRegistry.getType in *.
    assert (Hplain : inherited type = false /\ inherited prefix = false).
    { split.
      - apply found_false in Htype as [Htype | Htype].
        + apply property_Missing in Htype. apply Htype.
        + apply (IHt _ _ Htype).
      - apply found_false in Hprefix as [Hprefix | Hprefix].
        + apply property_Missing in Hprefix. apply Hprefix.
        + apply (IHp _ _ Hprefix). }
    simpl. split; intros k v Hk.
    + destruct (decide (type = k)) as [<- | Hne].
      * rewrite property_insert_eq in Hk. injection Hk as <-. exact Hplain.
      * rewrite property_insert_ne in Hk by assumption. eauto.
    + destruct (decide (prefix = k)) as [<- | Hne].
      * rewrite property_insert_eq in Hk. injection Hk as <-.
        split; apply Hplain.
      * rewrite property_insert_ne in Hk by assumption. eauto.
  - apply registerParser_Ok in Hcall as (_ & _ & ->). exact IH.
Qed.

Lemma reachable_parsersBacked st : reachable st -> parsersBacked st.
Proof.
  induction 1 as [| st st' type prefix _ IH Hcall
                  | st st' type version parser _ IH Hcall];
    intros p m Hp.
  - simpl in Hp. rewrite lookup_empty in Hp. discriminate.
  - apply registerType_Ok in Hcall as (_ & Hfree & ->). simpl in *.
    destruct (IH p m Hp) as (t & Ht & Hne).
    unfold TypeRegistry.getType in *. simpl.
    destruct (decide (prefix = p)) as [-> | Hother].
    + rewrite Ht in Hfree. rewrite (found_Own t Hne) in Hfree. discriminate.
    + rewrite property_insert_ne by assumption. eauto.
  - apply registerParser_Ok in Hcall as (Hknown & Hplain & ->). simpl in *.
    destruct (decide (type = p)) as [-> | Hother].
    + destruct (parsers st !! p) as [m0 |] eqn:Hm0; [eauto |].
      apply found_true in Hknown as [Hown | (name & Hmember)];
        [exact Hown |].
      apply property_Member in Hmember as (_ & Hinherited & _).
      rewrite (Hplain eq_refl) in Hinherited. discriminate.
    + rewrite lookup_insert_ne in Hp by assumption. eauto.
Qed.

Lemma reachable_parsersInhabited st : reachable st -> parsersInhabited st.
Proof.
  induction 1 as [| st st' type prefix _ IH Hcall
                  | st st' type version parser _ IH Hcall];
    intros p m Hp.
  - simpl in Hp. rewrite lookup_empty in Hp. discriminate.
  - apply registerType_Ok in Hcall as (_ & _ & ->). simpl in *. eauto.
  - apply registerParser_Ok in Hcall as (_ & _ & ->). simpl in *.
    destruct (decide (type = p)) as [-> | Hne].
    + rewrite lookup_insert_eq in Hp. injection Hp as <-.
      exists version, parser. apply lookup_insert_eq.
    + rewrite lookup_insert_ne in Hp by assumption. eauto.
Qed.

Lemma reachable_namedTypesMirrored st : reachable st -> namedTypesMirrored st.
Proof.
  induction 1 as [| st st' type prefix _ IH Hcall
                  | st st' type version parser _ IH Hcall];
    intros ty p Hty Hne.
  - unfold TypeRegistry.getPrefix in Hty. apply property_Own in Hty.
    simpl in Hty. rewrite lookup_empty in Hty. discriminate.
  - apply registerType_Ok in Hcall as (_ & Hfree & ->).
    unfold TypeRegistry.getPrefix, TypeRegistry.getType in *. simpl in *.
    destruct (decide (type = ty)) as [-> | Hty'].
    + rewrite property_insert_eq in Hty. injection Hty as <-.
      apply property_insert_eq.
    + rewrite property_insert_ne in Hty by assumption.
      specialize (IH ty p Hty Hne). unfold TypeRegistry.getType in IH.
      destruct (decide (prefix = p)) as [-> | Hp].
      * rewrite IH in Hfree. rewrite (found_Own ty Hne) in Hfree.
        discriminate.
      * rewrite property_insert_ne by assumption. exact IH.
  - apply registerParser_Ok in Hcall as (_ & _ & ->). simpl in *. eauto.
Qed.

(** A parser table never sits under an inherited name: the call that would
    create it finds the inherited member in its place. *)
Lemma reachable_parsers_plain st prefix versionedParsers :
  reachable st ->
  parsers st !! prefix = Some versionedParsers ->
  inherited prefix = false.
Proof.
  intros Hreach Hp.
  destruct (reachable_parsersBacked st Hreach prefix versionedParsers Hp)
    as (type & Htype & _).
  apply (proj2 (reachable_plainNames st Hreach) prefix type Htype).
Qed.

(** ** The example states are reachable *)

Lemma organizationTypeOnly_reachable : reachable organizationTypeOnly.
Proof.
  apply (reach_registerType noRegistrations _ "Organization" "org");
    [apply reach_init | vm_compute; reflexivity].
Qed.

Lemma organizationRegistries_reachable : reachable organizationRegistries.
Proof.
  apply (reach_registerParser organizationTypeOnly _ "org" "1.0.0" StringParser);
    [apply organizationTypeOnly_reachable | vm_compute; reflexivity].
Qed.

Lemma organizationSetup_eq : organizationSetup = Ok organizationRegistries.
Proof. vm_compute. reflexivity. Qed.

Lemma emptyNameRegistries_reachable : reachable emptyNameRegistries.
Proof.
  apply (reach_registerType noRegistrations _ "" "p");
    [apply reach_init | vm_compute; reflexivity].
Qed.

Lemma emptyPrefixRegistries_reachable : reachable emptyPrefixRegistries.
Proof.
  apply (reach_registerType noRegistrations _ "T" "");
    [apply reach_init | vm_compute; reflexivity].
Qed.

Lemma objectPrefixRegistries_reachable : reachable objectPrefixRegistries.
Proof.
  apply (reach_registerParser
           (mkRegistries (typeRegistry objectPrefixRegistries) ∅) _
           "[object Object]" "1.0.0" StringParser);
    [| vm_compute; reflexivity].
  apply (reach_registerType noRegistrations _ "X" "[object Object]");
    [apply reach_init | vm_compute; reflexivity].
Qed.

Lemma sharedPrefixRegistries_reachable : reachable sharedPrefixRegistries.
Proof.
  apply (reach_registerParser
           (mkRegistries (typeRegistry sharedPrefixRegistries) ∅) _
           "p" "1.0.0" StringParser);
    [| vm_compute; reflexivity].
  apply (reach_registerType emptyNameRegistries _ "B" "p");
    [apply emptyNameRegistries_reachable | vm_compute; reflexivity].
Qed.

(** ** TypeRegistry *)

(** A type or a prefix that is mapped to a non-empty string is refused. *)
Lemma registerType_rejects_named type prefix st :
  (exists p, TypeRegistry.getPrefix (typeRegistry st) type = Own p
             /\ p <> EmptyString) \/
  (exists t, TypeRegistry.getType (typeRegistry st) prefix = Own t
             /\ t <> EmptyString) ->
  registerType type prefix st = Err DuplicateRegistration.
Proof.
  unfold registerType, TypeRegistry.registerType, TypeRegistry.getPrefix,
    TypeRegistry.getType.
  intros [(p & -> & Hp) | (t & -> & Ht)].
  - rewrite (found_Own p Hp). reflexivity.
  - rewrite (found_Own t Ht), orb_true_r. reflexivity.
Qed.

(** X4: with non-empty names only, the registry is what the specification
    says: the two maps are inverse to each other, so no two types share a
    prefix and no type has two prefixes. *)
Lemma registeredNamed_bijection r :
  registeredNamed r ->
  forall type prefix,
    TypeRegistry.getPrefix r type = Own prefix <->
    TypeRegistry.getType r prefix = Own type.
Proof.
  intros Hr.
  assert (H : (forall type prefix,
                  TypeRegistry.typeMap r !! type = Some prefix <->
                  TypeRegistry.prefixMap r !! prefix = Some type) /\
              (forall type prefix,
                  TypeRegistry.typeMap r !! type = Some prefix ->
                  type <> EmptyString /\ prefix <> EmptyString)).
  2:{ intros type prefix. unfold TypeRegistry.getPrefix, TypeRegistry.getType.
      rewrite !property_Own. apply H. }
  induction Hr as [| r r' type prefix _ (IHinv & IHnamed) Htype Hprefix Hcall].
  - split; intros ty p; cbn; rewrite ?lookup_empty; [split |]; discriminate.
  - unfold TypeRegistry.registerType in Hcall.
    destruct (found (property (TypeRegistry.typeMap r) type)) eqn:Hft;
      [discriminate |].
    destruct (found (property (TypeRegistry.prefixMap r) prefix)) eqn:Hfp;
      [discriminate |].
    cbn in Hcall. injection Hcall as <-. cbn.
    assert (Ht : TypeRegistry.typeMap r !! type = None).
    { destruct (TypeRegistry.typeMap r !! type) as [p0 |] eqn:Ht;
        [| reflexivity].
      destruct (IHnamed type p0 Ht) as (_ & Hp0).
      apply property_Own in Ht. rewrite Ht, (found_Own p0 Hp0) in Hft.
      discriminate. }
    assert (Hp : TypeRegistry.prefixMap r !! prefix = None).
    { destruct (TypeRegistry.prefixMap r !! prefix) as [t0 |] eqn:Hp;
        [| reflexivity].
      pose proof Hp as Hp'. apply IHinv in Hp'.
      destruct (IHnamed t0 prefix Hp') as (Ht0 & _).
      apply property_Own in Hp. rewrite Hp, (found_Own t0 Ht0) in Hfp.
      discriminate. }
    split; intros ty p.
    + destruct (decide (type = ty)) as [<- | Hne];
        destruct (decide (prefix = p)) as [<- | Hne'];
        rewrite ?lookup_insert_eq, ?lookup_insert_ne by assumption.
      * split; reflexivity.
      * split; [intros [= ?]; congruence |].
        intros Hother. apply IHinv in Hother. congruence.
      * split; [| intros [= ?]; congruence].
        intros Hother. apply IHinv in Hother. congruence.
      * apply IHinv.
    + destruct (decide (type = ty)) as [<- | Hne];
        rewrite ?lookup_insert_eq, ?lookup_insert_ne by assumption.
      * intros [= <-]. auto.
      * apply IHnamed.
Qed.

(** C3, on the code: a type named by the empty string, or registered under
    the empty prefix, does not block a second registration.  After
    [registerType("", "p")] the call [registerType("B", "p")] returns
    normally and two types share the prefix [p]; after
    [registerType("A", "")] the call [registerType("A", "x")] returns
    normally, [A] is registered twice and two prefixes resolve to it. *)
Theorem registerType_empty_string_not_duplicate :
  (exists st1 st2,
      registerType "" "p" noRegistrations = Ok st1 /\
      registerType "B" "p" st1 = Ok st2 /\
      TypeRegistry.getPrefix (typeRegistry st2) "" = Own "p" /\
      TypeRegistry.getPrefix (typeRegistry st2) "B" = Own "p") /\
  (exists st1 st2,
      registerType "A" "" noRegistrations = Ok st1 /\
      registerType "A" "x" st1 = Ok st2 /\
      TypeRegistry.getPrefix (typeRegistry st2) "A" = Own "x" /\
      TypeRegistry.getType (typeRegistry st2) "" = Own "A" /\
      TypeRegistry.getType (typeRegistry st2) "x" = Own "A").
Proof.
  split; eexists; eexists; repeat split;
    try (vm_compute; reflexivity).
Qed.

(** ** ParserRegistry *)

Lemma stored_registerParser_same type version parser st :
  stored {| typeRegistry := typeRegistry st;
            parsers := <[type := <[version := parser]>
                                   (default ∅ (parsers st !! type))]>
                         (parsers st) |} type version = Some parser.
Proof.
  unfold stored. simpl. rewrite lookup_insert_eq. simpl.
  apply lookup_insert_eq.
Qed.

Lemma stored_registerParser_other type version parser st t v :
  t <> type \/ v <> version ->
  stored {| typeRegistry := typeRegistry st;
            parsers := <[type := <[version := parser]>
                                   (default ∅ (parsers st !! type))]>
                         (parsers st) |} t v = stored st t v.
Proof.
  intros Hother. unfold stored. simpl.
  destruct (decide (type = t)) as [<- | Hne].
  - rewrite lookup_insert_eq. simpl.
    destruct Hother as [? | Hv]; [congruence |].
    rewrite lookup_insert_ne by congruence.
    destruct (parsers st !! type); simpl; [reflexivity | apply lookup_empty].
  - rewrite lookup_insert_ne by assumption. reflexivity.
Qed.

(** C4, on the code.  After [registerType("", "p")] the prefix [p] is
    present in the TypeRegistry ([getType("p")] is the empty string, not
    [undefined]), yet [registerParser("p", ...)] throws "... is not
    registered in the TypeRegistry".  And on registries without any
    registration, [registerParser("constructor", ...)] does not throw that
    error although [constructor] is not present: the lookup finds the member
    every object inherits, the guard lets the call through, and the call ends
    in a [TypeError]. *)
Theorem registerParser_rejects_present_prefix :
  reachable emptyNameRegistries /\
  TypeRegistry.getType (typeRegistry emptyNameRegistries) "p" = Own EmptyString /\
  TypeRegistry.getType (typeRegistry emptyNameRegistries) "p" <> Missing /\
  ParserRegistry.registerParser "p" "1.0.0" StringParser emptyNameRegistries
    = Err UnknownType /\
  TypeRegistry.getType (typeRegistry noRegistrations) "constructor"
    = Member "constructor" /\
  ParserRegistry.registerParser "constructor" "1.0.0" StringParser
    noRegistrations = Err TypeError.
Proof.
  split; [apply emptyNameRegistries_reachable |].
  split; [reflexivity |].
  split; [discriminate |].
  split; [vm_compute; reflexivity |].
  split; vm_compute; reflexivity.
Qed.

(** What [registerParser] does where the guard works as meant: for a type
    name that is no inherited name, it fails with UnknownType exactly when
    [getType(type)] is [undefined] or the empty string; otherwise it returns
    normally, leaves the TypeRegistry alone, stores [parser] under
    [(type, version)] whatever was stored there before, and changes no other
    entry. *)
Lemma registerParser_effect st type version parser :
  inherited type = false ->
  (ParserRegistry.registerParser type version parser st = Err UnknownType <->
   TypeRegistry.getType (typeRegistry st) type = Missing \/
   TypeRegistry.getType (typeRegistry st) type = Own EmptyString) /\
  (forall name,
      TypeRegistry.getType (typeRegistry st) type = Own name ->
      name <> EmptyString ->
      exists st',
        ParserRegistry.registerParser type version parser st = Ok st' /\
        typeRegistry st' = typeRegistry st /\
        stored st' type version = Some parser /\
        forall t v, t <> type \/ v <> version -> stored st' t v = stored st t v).
Proof.
  intros Hplain.
  assert (Hcall : found (TypeRegistry.getType (typeRegistry st) type) = true ->
    ParserRegistry.registerParser type version parser st
    = Ok {| typeRegistry := typeRegistry st;
            parsers := <[type := <[version := parser]>
                                   (default ∅ (parsers st !! type))]>
                         (parsers st) |}).
  { intros Hfound. unfold ParserRegistry.registerParser.
    rewrite Hfound, Hplain. simpl.
    destruct (parsers st !! type); reflexivity. }
  split.
  - rewrite <- found_false.
    destruct (found (TypeRegistry.getType (typeRegistry st) type)) eqn:Hfound.
    + rewrite (Hcall eq_refl). split; discriminate.
    + unfold ParserRegistry.registerParser. rewrite Hfound. simpl.
      split; reflexivity.
  - intros name Hname Hne.
    rewrite Hcall by (rewrite Hname; apply found_Own; exact Hne).
    eexists. split; [reflexivity |].
    split; [reflexivity |].
    split; [apply stored_registerParser_same |].
    intros t v. apply stored_registerParser_other.
Qed.

(** C5, on the code: on registries without any registration no parser
    exists for the type [constructor], yet [getParser("constructor",
    "1.0.0")] does not fail with UnknownType.  The lookup finds the member
    every object inherits, the test of [versionedParsers] passes, and the
    call of [get] on it ends in a [TypeError]. *)
Theorem getParser_inherited_name :
  (forall version, stored noRegistrations "constructor" version = None) /\
  ParserRegistry.getParser noRegistrations "constructor" (VStr "1.0.0")
    = Err TypeError /\
  ParserRegistry.getParser noRegistrations "constructor" (VStr "1.0.0")
    <> Err UnknownType.
Proof.
  split; [intros version; reflexivity |].
  split; [vm_compute; reflexivity | vm_compute; discriminate].
Qed.

(** What [getParser] does for a type name that is no inherited name: it
    fails with UnknownType if no parser exists for [type] at all, fails with
    UnknownVersion if [type] has a parser but none for [version], and
    otherwise returns the parser stored under [(type, version)]. *)
Lemma getParser_effect st type version :
  reachable st ->
  inherited type = false ->
  ((forall v, stored st type v = None) ->
   ParserRegistry.getParser st type (VStr version) = Err UnknownType) /\
  ((exists v parser, stored st type v = Some parser) ->
   stored st type version = None ->
   ParserRegistry.getParser st type (VStr version) = Err UnknownVersion) /\
  (forall parser,
      stored st type version = Some parser ->
      ParserRegistry.getParser st type (VStr version) = Ok parser).
Proof.
  intros Hreach Hplain.
  pose proof (reachable_parsersInhabited st Hreach type) as Hinh.
  unfold ParserRegistry.getParser, stored in *. simpl.
  destruct (parsers st !! type) as [m |]; simpl.
  - split; [| split].
    + intros Hnone. destruct (Hinh m eq_refl) as (v & p & Hv).
      rewrite Hnone in Hv. discriminate.
    + intros _ Hv. rewrite Hv. reflexivity.
    + intros p Hv. rewrite Hv. reflexivity.
  - rewrite Hplain. split; [reflexivity |]. split.
    + intros (v & p & [=]).
    + intros p [=].
Qed.

(** In every reachable state, and for every name that objects inherit,
    both calls end in the [TypeError]. *)
Lemma inherited_name_calls st type version parser :
  reachable st ->
  inherited type = true ->
  ParserRegistry.registerParser type version parser st = Err TypeError /\
  ParserRegistry.getParser st type (VStr version) = Err TypeError.
Proof.
  intros Hreach Hinherited.
  assert (Hnone : parsers st !! type = None).
  { destruct (parsers st !! type) as [m |] eqn:Hm; [| reflexivity].
    rewrite (reachable_parsers_plain st type m Hreach Hm) in Hinherited.
    discriminate. }
  assert (Hmember : TypeRegistry.getType (typeRegistry st) type = Member type).
  { unfold TypeRegistry.getType. apply property_Member.
    split; [| auto].
    destruct (TypeRegistry.prefixMap (typeRegistry st) !! type) as [t |] eqn:Ht;
      [| reflexivity].
    apply property_Own in Ht.
    destruct (proj2 (reachable_plainNames st Hreach) type t Ht) as (Hplain & _).
    congruence. }
  unfold ParserRegistry.registerParser, ParserRegistry.getParser.
  rewrite Hmember, Hnone, Hinherited. split; reflexivity.
Qed.

(** ** Encoder: the order of the checks *)

(** C6, on the code: on registries without any registration the type
    [constructor] has no prefix, yet [encode] does not refuse it as
    unregistered.  The lookup finds the member every object inherits, the
    check of [typePrefix] passes, and the call goes on to the parser lookup,
    which fails for the text of that member. *)
Theorem encode_inherited_type :
  (forall prefix,
      TypeRegistry.getPrefix (typeRegistry noRegistrations) "constructor"
      <> Own prefix) /\
  ParserRegistry.getParser noRegistrations
    "function Object() { [native code] }" (VStr "1.0.0") = Err UnknownType /\
  Encoder.encode noRegistrations (mkGlobalId "constructor" "1.0.0" (VStr "abc"))
    = Err UnknownType /\
  Encoder.encode noRegistrations (mkGlobalId "constructor" "1.0.0" (VStr "abc"))
    <> Err UnregisteredType.
Proof.
  split; [intros prefix; vm_compute; discriminate |].
  do 2 (split; [vm_compute; reflexivity |]).
  vm_compute. discriminate.
Qed.

(** Where the lookup finds nothing, the GlobalId is refused with
    UnregisteredType whatever the parser table holds and whatever the
    version and the value are: the check comes before any parser lookup and
    before any serialization. *)
Lemma encode_unregistered_type types table id :
  TypeRegistry.getPrefix types (getType id) = Missing ->
  Encoder.encode (mkRegistries types table) id = Err UnregisteredType.
Proof.
  intros Hnone. unfold Encoder.encode. simpl. rewrite Hnone. reflexivity.
Qed.

Lemma encode_falsy_value st type version value prefix :
  TypeRegistry.getPrefix (typeRegistry st) type = Own prefix ->
  prefix <> EmptyString ->
  truthy value = false ->
  Encoder.encode st (mkGlobalId type version value) = Err NullValue.
Proof.
  intros Hprefix Hne Hfalsy. unfold Encoder.encode.
  cbn [getType getVersion getValue].
  rewrite Hprefix, (found_Own prefix Hne), Hfalsy.
  reflexivity.
Qed.

(** C7, on the code: a type registered under the empty prefix is refused
    as unregistered before the value is looked at. *)
Theorem encode_null_empty_prefix :
  reachable emptyPrefixRegistries /\
  TypeRegistry.getPrefix (typeRegistry emptyPrefixRegistries) "T"
    = Own EmptyString /\
  Encoder.encode emptyPrefixRegistries (mkGlobalId "T" "1.0.0" VNull)
    = Err UnregisteredType /\
  Encoder.encode emptyPrefixRegistries (mkGlobalId "T" "1.0.0" VNull)
    <> Err NullValue.
Proof.
  split; [apply emptyPrefixRegistries_reachable |].
  split; [reflexivity |].
  split; [vm_compute; reflexivity | vm_compute; discriminate].
Qed.

(** For every type registered under a non-empty prefix and every version,
    encoding a GlobalId whose value is [null] or [undefined] fails with
    NullValue. *)
Lemma encode_null_value st type version value prefix :
  TypeRegistry.getPrefix (typeRegistry st) type = Own prefix ->
  prefix <> EmptyString ->
  value = VNull \/ value = VUndefined ->
  Encoder.encode st (mkGlobalId type version value) = Err NullValue.
Proof.
  intros Hprefix Hne Hvalue.
  apply (encode_falsy_value st type version value prefix Hprefix Hne).
  destruct Hvalue as [-> | ->]; reflexivity.
Qed.

(** C10, on the code: the number 0 sent under a type registered with the
    empty prefix is refused with UnregisteredType, not with NullValue. *)
Theorem encode_zero_empty_prefix :
  reachable emptyPrefixRegistries /\
  TypeRegistry.getPrefix (typeRegistry emptyPrefixRegistries) "T"
    = Own EmptyString /\
  truthy (VNum 0) = false /\
  Encoder.encode emptyPrefixRegistries (mkGlobalId "T" "1.0.0" (VNum 0))
    = Err UnregisteredType /\
  Encoder.encode emptyPrefixRegistries (mkGlobalId "T" "1.0.0" (VNum 0))
    <> Err NullValue.
Proof.
  split; [apply emptyPrefixRegistries_reachable |].
  do 2 (split; [reflexivity |]).
  split; [vm_compute; reflexivity | vm_compute; discriminate].
Qed.

(** For every type registered under a non-empty prefix and every version,
    [encode] refuses every falsy value with NullValue: not only [null] and
    [undefined] but also the number 0, the empty string, [false] and
    [NaN]. *)
Lemma encode_rejects_falsy st type version prefix :
  TypeRegistry.getPrefix (typeRegistry st) type = Own prefix ->
  prefix <> EmptyString ->
  (forall value,
      truthy value = false ->
      Encoder.encode st (mkGlobalId type version value) = Err NullValue) /\
  Forall (fun value =>
            Encoder.encode st (mkGlobalId type version value) = Err NullValue)
    [VNum 0; VStr EmptyString; VBool false; VNaN; VNull; VUndefined].
Proof.
  intros Hprefix Hne. split.
  - intros value. apply (encode_falsy_value st type version value prefix);
      assumption.
  - repeat constructor;
      apply (encode_falsy_value st type version _ prefix); auto.
Qed.

(** C8, on the code: [encode] returns a string for a type that has no
    registered prefix.  With the type [X] registered under the prefix
    [[object Object]] and a parser under that prefix, a GlobalId of the type
    [__proto__], which was never registered, is encoded: the lookup finds
    the prototype object, whose text is the key of the parser table and the
    start of the returned string. *)
Theorem encode_never_registered_type :
  reachable objectPrefixRegistries /\
  (forall prefix,
      TypeRegistry.getPrefix (typeRegistry objectPrefixRegistries) "__proto__"
      <> Own prefix) /\
  Encoder.encode objectPrefixRegistries
    (mkGlobalId "__proto__" "1.0.0" (VStr "abc"))
    = Ok "[object Object]_gmNhYmNlMS4wLjA" /\
  Encoder.encode objectPrefixRegistries (mkGlobalId "X" "1.0.0" (VStr "abc"))
    = Ok "[object Object]_gmNhYmNlMS4wLjA".
Proof.
  split; [apply objectPrefixRegistries_reachable |].
  split; [intros prefix; vm_compute; discriminate |].
  split; vm_compute; reflexivity.
Qed.

(** When [encode] returns a string, the string starts with the text of what
    the lookup of the type found, followed by the separator; for a
    registered type that is its prefix. *)
Lemma encode_prefix st id encoded :
  Encoder.encode st id = Ok encoded ->
  found (TypeRegistry.getPrefix (typeRegistry st) (getType id)) = true /\
  exists payload,
    encoded
    = toText (TypeRegistry.getPrefix (typeRegistry st) (getType id))
        +:+ "_" +:+ payload.
Proof.
  unfold Encoder.encode.
  destruct (found (TypeRegistry.getPrefix (typeRegistry st) (getType id)));
    [| discriminate].
  cbn [negb].
  destruct (negb (truthy (getValue id))); [discriminate |].
  destruct (ParserRegistry.getParser st _ (VStr (getVersion id)))
    as [parser | e]; simpl; [| discriminate].
  destruct (format parser (getValue id)) as [formatted |]; simpl;
    [| discriminate].
  intros [= <-]. eauto.
Qed.

(** ** Decoder: splitting and the final lookup *)

Lemma splitByFirstOccurrence_prefixed prefix payload :
  indexOf "_" prefix = None ->
  Decoder.splitByFirstOccurrence (prefix +:+ "_" +:+ payload) "_"
    = [prefix; payload].
Proof.
  unfold Decoder.splitByFirstOccurrence.
  induction prefix as [| c prefix IH]; simpl; [reflexivity |].
  destruct (Ascii.eqb c "_"); [discriminate |].
  destruct (indexOf "_" prefix) as [i |] eqn:Hi; simpl; [discriminate |].
  intros _. specialize (IH eq_refl).
  destruct (indexOf "_" (prefix +:+ "_" +:+ payload)) as [j |]; simpl in *;
    congruence.
Qed.

Lemma getParser_Ok st type version parser :
  ParserRegistry.getParser st type version = Ok parser ->
  exists v, version = VStr v /\ stored st type v = Some parser.
Proof.
  unfold ParserRegistry.getParser, stored.
  destruct (parsers st !! type) as [m |];
    [| destruct (inherited type); discriminate].
  simpl.
  destruct version; simpl; try discriminate.
  destruct (m !! s) as [p |] eqn:Hs; [| discriminate].
  intros [= <-]. eauto.
Qed.

Lemma getParser_stored st type version parser :
  stored st type version = Some parser ->
  ParserRegistry.getParser st type (VStr version) = Ok parser.
Proof.
  unfold ParserRegistry.getParser, stored.
  destruct (parsers st !! type) as [m |]; simpl; [| discriminate].
  intros ->. reflexivity.
Qed.

Lemma getParser_Err st type version e :
  ParserRegistry.getParser st type version = Err e ->
  e = UnknownType \/ e = UnknownVersion \/ e = TypeError.
Proof.
  unfold ParserRegistry.getParser.
  destruct (parsers st !! type) as [m |];
    [| destruct (inherited type); intros [= <-]; auto].
  destruct (ParserRegistry.Map_get m version); [discriminate |].
  intros [= <-]. auto.
Qed.

(** C9: in every state reached by registerType and registerParser calls,
    a prefix for which [getParser] finds a parser resolves to a non-empty
    type name, so the decoder's final check never fires: [decode] never
    fails with UnregisteredType. *)
Theorem decode_type_lookup_present st :
  reachable st ->
  (forall prefix version parser,
      ParserRegistry.getParser st prefix version = Ok parser ->
      exists type,
        TypeRegistry.getType (typeRegistry st) prefix = Own type /\
        type <> EmptyString) /\
  (forall encodedId, Decoder.decode st encodedId <> Err UnregisteredType).
Proof.
  intros Hreach.
  assert (Hlookup : forall prefix version parser,
    ParserRegistry.getParser st prefix version = Ok parser ->
    exists type,
      TypeRegistry.getType (typeRegistry st) prefix = Own type /\
      type <> EmptyString).
  { intros prefix version parser Hget.
    unfold ParserRegistry.getParser in Hget.
    destruct (parsers st !! prefix) as [m |] eqn:Hm;
      [| destruct (inherited prefix); discriminate].
    exact (reachable_parsersBacked st Hreach prefix m Hm). }
  split; [exact Hlookup |].
  intros encodedId. unfold Decoder.decode.
  destruct (Decoder.splitByFirstOccurrence encodedId "_")
    as [| prefix [| payload rest]]; try discriminate.
  destruct (cborDecode _) as [decoded |]; run_result; [| discriminate].
  destruct (Decoder.destructure decoded) as [[data version] |]; run_result;
    [| discriminate].
  destruct (ParserRegistry.getParser st prefix version) as [parser | e] eqn:Hget;
    run_result.
  - destruct (parse parser data); run_result; [| discriminate].
    destruct (Hlookup prefix version parser Hget) as (type & -> & Hne).
    rewrite (found_Own type Hne). discriminate.
  - apply getParser_Err in Hget as [-> | [-> | ->]]; discriminate.
Qed.

Lemma decode_type_lookup_present_witness :
  reachable organizationRegistries /\
  (exists type,
      TypeRegistry.getType (typeRegistry organizationRegistries) "org"
        = Own type /\ type <> EmptyString) /\
  Decoder.decode organizationRegistries "unregisteredType_gmNhYmNlMS4wLjA"
    <> Err UnregisteredType.
Proof.
  split; [apply organizationRegistries_reachable |].
  split.
  - apply (proj1 (decode_type_lookup_present organizationRegistries
                    organizationRegistries_reachable)
             "org" (VStr "1.0.0") StringParser).
    reflexivity.
  - apply (decode_type_lookup_present organizationRegistries
             organizationRegistries_reachable).
Defined.

(** ** Decoder: what goes unchecked in the payload *)


(** ** Base64 *)

Local Open Scope N_scope.

Ltac lia_div := zify; Z.to_euclidean_division_equations; lia.

Lemma byteN_to_N (b : byte) : byteN (Byte.to_N b) = b.
Proof.
  unfold byteN. pose proof (Byte.to_N_bounded b).
  rewrite N.mod_small by lia. rewrite Byte.of_to_N. reflexivity.
Qed.

Lemma to_N_byteN (n : N) : n < 256 -> Byte.to_N (byteN n) = n.
Proof.
  intros Hn. unfold byteN. rewrite N.mod_small by assumption.
  destruct (Byte.of_N n) as [b |] eqn:Hb; simpl.
  - apply Byte.to_of_N. assumption.
  - apply Byte.of_N_None_iff in Hb. lia.
Qed.

Lemma to_N_lt (b : byte) : Byte.to_N b < 256.
Proof. pose proof (Byte.to_N_bounded b). lia. Qed.

Lemma b64char_digit (n : N) : n < 64 -> digitFacts n (b64char n).
Proof.
  intros Hn.
  assert (Hk : exists k, (k < 64)%nat /\ n = N.of_nat k)
    by (exists (N.to_nat n); lia).
  destruct Hk as (k & Hk & ->). clear Hn.
  do 64 (destruct k as [| k]; [vm_compute; auto |]).
  lia.
Qed.

Lemma list_ind3 {A} (P : list A -> Prop) :
  P [] ->
  (forall a, P [a]) ->
  (forall a b, P [a; b]) ->
  (forall a b c l, P l -> P (a :: b :: c :: l)) ->
  forall l, P l.
Proof.
  intros H0 H1 H2 H3.
  assert (H : forall l, P l /\ (forall a, P (a :: l)) /\ (forall a b, P (a :: b :: l))).
  { induction l as [| x l (IH0 & IH1 & IH2)]; [auto |].
    split; [apply IH1 |]. split; [intros a; apply IH2 |].
    intros a b. apply H3. exact IH0. }
  intros l. apply H.
Qed.

Lemma sextets_digit n c r :
  digitFacts n c -> sextets (String c r) = n :: sextets r.
Proof. intros (Hun & Hpad & _). cbn [sextets]. rewrite Hpad, Hun. reflexivity. Qed.

Lemma byteN_eq (n : N) (b : byte) : n = Byte.to_N b -> byteN n = b.
Proof. intros ->. apply byteN_to_N. Qed.

Ltac read_digits :=
  repeat match goal with
    | |- context [sextets (String (b64char ?n) ?r)] =>
        rewrite (sextets_digit n (b64char n) r
                   (b64char_digit n ltac:(lia_div)))
    end.

(** [Buffer.from(buffer.toString('base64'), 'base64')] is [buffer]. *)
Lemma Buffer_from_base64_toBase64 (buffer : list byte) :
  Buffer_from_base64 (toBase64 buffer) = buffer.
Proof.
  unfold Buffer_from_base64.
  induction buffer as [| a | a b | a b c rest IH] using list_ind3.
  - reflexivity.
  - pose proof (to_N_lt a). cbn [toBase64].
    read_digits.
    cbn [bytesOfSextets]. f_equal. apply byteN_eq; lia_div.
  - pose proof (to_N_lt a). pose proof (to_N_lt b). cbn [toBase64].
    read_digits.
    cbn [bytesOfSextets]. f_equal; [| f_equal].
    + apply byteN_eq; lia_div.
    + apply byteN_eq; lia_div.
  - pose proof (to_N_lt a). pose proof (to_N_lt b). pose proof (to_N_lt c).
    cbn [toBase64].
    read_digits.
    cbn [bytesOfSextets]. rewrite IH. f_equal; [| f_equal; [| f_equal]].
    + apply byteN_eq; lia_div.
    + apply byteN_eq; lia_div.
    + apply byteN_eq; lia_div.
Qed.

Local Close Scope N_scope.

Lemma stripTrailing_cons c x r :
  Ascii.eqb x c = false ->
  stripTrailing c (String x r) = String x (stripTrailing c r).
Proof.
  intros Hx. cbn [stripTrailing]. rewrite Hx.
  destruct (stripTrailing c r); reflexivity.
Qed.

Lemma pad_cons4 fuel c1 c2 c3 c4 s :
  Decoder.pad fuel (String c1 (String c2 (String c3 (String c4 s))))
  = String c1 (String c2 (String c3 (String c4 (Decoder.pad fuel s)))).
Proof.
  revert s. induction fuel as [| fuel IH]; intros s; cbn [Decoder.pad];
    change (String.length (String c1 (String c2 (String c3 (String c4 s)))))
      with (4 + String.length s);
    replace ((4 + String.length s) mod 4) with (String.length s mod 4)
      by (rewrite <- (Nat.Div0.mod_add (String.length s) 1 4); f_equal; lia);
    destruct (String.length s mod 4 =? 0); try reflexivity.
  cbn [String.append]. apply IH.
Qed.

(** Names every base64 digit of the goal, keeping what is known of it. *)
Ltac name_digits :=
  repeat match goal with
    | |- context [b64char ?n] =>
        let H := fresh "Hdigit" in
        pose proof (b64char_digit n ltac:(lia_div)) as H;
        cbv beta zeta delta [digitFacts] in H;
        destruct H as (_ & _ & ? & ?);
        generalize dependent (b64char n); intros ? ? ?
    end.

Ltac restore_digits :=
  repeat match goal with
    | H : substitute _ _ (substitute _ _ _) = _ |- _ => rewrite H; clear H
    end.

(** Undoing the encoder's substitutions and padding again gives back the
    base64 text of the buffer. *)
Lemma restore_sanitized (buffer : list byte) :
  Decoder.pad 3
    (replaceAll "_" "/" (replaceAll "-" "+"
       (stripTrailing "="
          (replaceAll "/" "_" (replaceAll "+" "-" (toBase64 buffer))))))
  = toBase64 buffer.
Proof.
  induction buffer as [| a | a b | a b c rest IH] using list_ind3.
  - reflexivity.
  - pose proof (to_N_lt a). cbn [toBase64]. name_digits.
    cbn [replaceAll]. rewrite !stripTrailing_cons by assumption.
    cbn [replaceAll stripTrailing substitute Ascii.eqb Bool.eqb].
    restore_digits. reflexivity.
  - pose proof (to_N_lt a). pose proof (to_N_lt b). cbn [toBase64].
    name_digits.
    cbn [replaceAll]. rewrite !stripTrailing_cons by assumption.
    cbn [replaceAll stripTrailing substitute Ascii.eqb Bool.eqb].
    restore_digits. reflexivity.
  - pose proof (to_N_lt a). pose proof (to_N_lt b). pose proof (to_N_lt c).
    cbn [toBase64]. name_digits.
    cbn [replaceAll]. rewrite !stripTrailing_cons by assumption.
    cbn [replaceAll]. rewrite pad_cons4, IH.
    restore_digits. reflexivity.
Qed.

(** ** The binary codec on envelopes *)

Local Open Scope N_scope.

Lemma to_N_byteN_mod (n : N) : Byte.to_N (byteN n) = n mod 256.
Proof.
  unfold byteN. rewrite <- (to_N_byteN (n mod 256)) at 2 by (apply N.mod_lt; lia).
  unfold byteN. rewrite N.Div0.mod_mod. reflexivity.
Qed.

Lemma readBE_be k n acc rest :
  readBE k acc (be k n ++ rest)
  = Some (acc * 256 ^ N.of_nat k + n mod 256 ^ N.of_nat k, rest).
Proof.
  revert acc. induction k as [| k IH]; intros acc.
  - cbn [readBE be app]. change (256 ^ N.of_nat 0) with 1.
    rewrite N.mod_1_r. do 2 f_equal. lia.
  - cbn [readBE be app]. rewrite IH, to_N_byteN_mod.
    rewrite Nat2N.inj_succ, N.pow_succ_r'.
    rewrite (N.mul_comm 256 (256 ^ N.of_nat k)).
    rewrite (N.Div0.mod_mul_r n (256 ^ N.of_nat k) 256).
    do 2 f_equal. lia.
Qed.

Lemma readHead_head major arg rest :
  major < 8 -> arg < 4294967296 ->
  readHead (head major arg ++ rest) = Some (major, arg, rest).
Proof.
  intros Hmajor Harg. unfold head.
  destruct (arg <? 24) eqn:H24; [apply N.ltb_lt in H24 | apply N.ltb_ge in H24].
  { cbn [app readHead]. rewrite to_N_byteN by lia.
    replace ((major * 32 + arg) mod 32) with arg by lia_div.
    replace ((major * 32 + arg) / 32) with major by lia_div.
    apply N.ltb_lt in H24. rewrite H24. reflexivity. }
  destruct (arg <? 256) eqn:H256;
    [apply N.ltb_lt in H256 | apply N.ltb_ge in H256].
  { cbn [app readHead]. rewrite to_N_byteN by lia.
    replace ((major * 32 + 24) mod 32) with 24 by lia_div.
    replace ((major * 32 + 24) / 32) with major by lia_div.
    cbn [N.ltb N.compare Pos.compare Pos.compare_cont N.eqb Pos.eqb].
    rewrite readBE_be. run_option. change (256 ^ N.of_nat 1) with 256.
    rewrite N.mod_small by lia. reflexivity. }
  destruct (arg <? 65536) eqn:H65536;
    [apply N.ltb_lt in H65536 | apply N.ltb_ge in H65536].
  { cbn [app readHead]. rewrite to_N_byteN by lia.
    replace ((major * 32 + 25) mod 32) with 25 by lia_div.
    replace ((major * 32 + 25) / 32) with major by lia_div.
    cbn [N.ltb N.compare Pos.compare Pos.compare_cont N.eqb Pos.eqb].
    rewrite readBE_be. run_option. change (256 ^ N.of_nat 2) with 65536.
    rewrite N.mod_small by lia. reflexivity. }
  apply N.ltb_lt in Harg. rewrite Harg. apply N.ltb_lt in Harg.
  cbn [app readHead]. rewrite to_N_byteN by lia.
  replace ((major * 32 + 26) mod 32) with 26 by lia_div.
  replace ((major * 32 + 26) / 32) with major by lia_div.
  cbn [N.ltb N.compare Pos.compare Pos.compare_cont N.eqb Pos.eqb].
  rewrite readBE_be. run_option. change (256 ^ N.of_nat 4) with 4294967296.
  rewrite N.mod_small by lia. reflexivity.
Qed.

Lemma length_list_byte_of_string (s : string) :
  length (list_byte_of_string s) = String.length s.
Proof. induction s as [| c s IH]; [reflexivity |]. cbn. f_equal. exact IH. Qed.

Lemma readBytes_app (b rest : list byte) :
  readBytes (N.of_nat (length b)) (b ++ rest) = Some (b, rest).
Proof.
  unfold readBytes. rewrite Nat2N.id, take_app_length, drop_app_length.
  rewrite length_app.
  destruct (N.of_nat (length b) <=? N.of_nat (length b + length rest)) eqn:Hle;
    [reflexivity |].
  apply N.leb_gt in Hle. lia.
Qed.

Lemma readItem_text fuel s rest :
  N.of_nat (String.length s) < 4294967296 ->
  readItem (S fuel) (encodeText s ++ rest) = Some (VStr s, rest).
Proof.
  intros Hlen. unfold encodeText. rewrite <- app_assoc. cbn [readItem].
  rewrite readHead_head by (assumption || reflexivity). run_option.
  rewrite <- length_list_byte_of_string, readBytes_app. run_option.
  rewrite string_of_list_byte_of_string. reflexivity.
Qed.

(** An envelope is read back as it was written. *)
Lemma cborDecode_envelope (formatted version : string) :
  N.of_nat (String.length formatted) < 4294967296 ->
  N.of_nat (String.length version) < 4294967296 ->
  cborDecode (cborEncode (VArr [VStr formatted; VStr version]))
  = Some (VArr [VStr formatted; VStr version]).
Proof.
  intros Hformatted Hversion. unfold cborDecode.
  cbn [cborEncode flat_map length]. rewrite app_nil_r.
  change (head 4 (N.of_nat 2)) with [byteN 130].
  cbn [app length].
  replace (2 * S (length (encodeText formatted ++ encodeText version)) + 2)%nat
    with (S (S (S (S (2 * length (encodeText formatted ++ encodeText version))))))
    by lia.
  set (fuel := (2 * length (encodeText formatted ++ encodeText version))%nat).
  cbn [readItem]. change (readHead (byteN 130 :: ?l)) with (Some (4, 2, l)).
  run_option. cbn [readItems N.eqb Pos.eqb].
  rewrite readItem_text by assumption. run_option.
  change (2 - 1) with 1. cbn [readItems N.eqb Pos.eqb].
  rewrite <- (app_nil_r (encodeText version)).
  rewrite readItem_text by assumption. run_option.
  reflexivity.
Qed.

Local Close Scope N_scope.

(** ** The fuel of the decoder *)

Lemma readBE_length k acc bs n rest :
  readBE k acc bs = Some (n, rest) -> length bs = k + length rest.
Proof.
  revert acc bs. induction k as [| k IH]; intros acc bs; cbn [readBE].
  - intros [= <- <-]. reflexivity.
  - destruct bs as [| b bs]; [discriminate |].
    intros H. apply IH in H. cbn. lia.
Qed.

Lemma readHead_length bs major arg rest :
  readHead bs = Some (major, arg, rest) -> length rest < length bs.
Proof.
  destruct bs as [| ib bs]; cbn [readHead]; [discriminate |].
  destruct (_ <? 24)%N; [intros [= <- <- <-]; cbn; lia |].
  destruct (_ =? 24)%N.
  { destruct (readBE 1 0 bs) as [[n r] |] eqn:Hbe; [| discriminate].
    cbn. intros [= <- <- <-]. apply readBE_length in Hbe. cbn. lia. }
  destruct (_ =? 25)%N.
  { destruct (readBE 2 0 bs) as [[n r] |] eqn:Hbe; [| discriminate].
    cbn. intros [= <- <- <-]. apply readBE_length in Hbe. cbn. lia. }
  destruct (_ =? 26)%N; [| discriminate].
  destruct (readBE 4 0 bs) as [[n r] |] eqn:Hbe; [| discriminate].
  cbn. intros [= <- <- <-]. apply readBE_length in Hbe. cbn. lia.
Qed.

Lemma readBytes_length n bs b rest :
  readBytes n bs = Some (b, rest) -> length rest <= length bs.
Proof.
  unfold readBytes. destruct (_ <=? _)%N; [| discriminate].
  intros [= <- <-]. rewrite length_drop. lia.
Qed.

Lemma readItem_adequate fuel : adequate fuel.
Proof.
  induction fuel as [| fuel (IHitem & IHitems & IHfields)].
  { split; [discriminate |].
    split; intros n bs xs rest; cbn; destruct (n =? 0)%N eqn:Hn;
      try discriminate; intros [= <- <-]; (split; [lia |]);
      intros [| f] _; cbn; rewrite Hn; reflexivity. }
  split; [| split].
  - intros bs v rest. cbn [readItem].
    destruct (readHead bs) as [[[major arg] rest0] |] eqn:Hhead;
      [| discriminate].
    pose proof (readHead_length _ _ _ _ Hhead) as Hlen.
    cbn [mbind option_bind].
    destruct major as [| p];
      [| do 3 (try (destruct p as [p | p |]; try discriminate))].
    all: intros Hitem.
    all: first
      [ injection Hitem as <- <-
      | destruct (simpleValue arg) as [x |] eqn:Hx; [| discriminate];
        injection Hitem as <- <-
      | destruct (readBytes arg rest0) as [[b r] |] eqn:Hb; [| discriminate];
        injection Hitem as <- <-;
        pose proof (readBytes_length _ _ _ _ Hb)
      | destruct (readItems fuel arg rest0) as [[xs r] |] eqn:Hxs;
        [| discriminate];
        injection Hitem as <- <-;
        destruct (IHitems _ _ _ _ Hxs) as (Hle & Hmore)
      | destruct (readFields fuel arg rest0) as [[fs r] |] eqn:Hfs;
        [| discriminate];
        injection Hitem as <- <-;
        destruct (IHfields _ _ _ _ Hfs) as (Hle & Hmore) ].
    all: split; [lia |].
    all: intros [| f] Hf; [lia |].
    all: cbn [readItem]; rewrite Hhead; cbn [mbind option_bind].
    all: rewrite ?Hx, ?Hb, ?(Hmore f) by lia; reflexivity.
  - intros n bs xs rest. cbn [readItems].
    destruct (n =? 0)%N eqn:Hn.
    { intros [= <- <-]. split; [lia |].
      intros [| f] _; cbn [readItems]; rewrite Hn; reflexivity. }
    destruct (readItem fuel bs) as [[x rest1] |] eqn:Hx; [| discriminate].
    cbn [mbind option_bind].
    destruct (readItems fuel (n - 1) rest1) as [[xs' rest2] |] eqn:Hxs;
      [| discriminate].
    cbn [mbind option_bind]. intros [= <- <-].
    destruct (IHitem _ _ _ Hx) as (Hlt & Hitem).
    destruct (IHitems _ _ _ _ Hxs) as (Hle & Hitems).
    split; [lia |].
    intros [| f] Hf; [lia |].
    cbn [readItems]. rewrite Hn, (Hitem f) by lia. cbn [mbind option_bind].
    rewrite (Hitems f) by lia. reflexivity.
  - intros n bs fs rest. cbn [readFields].
    destruct (n =? 0)%N eqn:Hn.
    { intros [= <- <-]. split; [lia |].
      intros [| f] _; cbn [readFields]; rewrite Hn; reflexivity. }
    destruct (readItem fuel bs) as [[k rest1] |] eqn:Hk; [| discriminate].
    cbn [mbind option_bind].
    destruct k; try discriminate.
    destruct (readItem fuel rest1) as [[x rest2] |] eqn:Hx; [| discriminate].
    cbn [mbind option_bind].
    destruct (readFields fuel (n - 1) rest2) as [[fs' rest3] |] eqn:Hfs;
      [| discriminate].
    cbn [mbind option_bind]. intros [= <- <-].
    destruct (IHitem _ _ _ Hk) as (Hlt1 & Hkey).
    destruct (IHitem _ _ _ Hx) as (Hlt2 & Hvalue).
    destruct (IHfields _ _ _ _ Hfs) as (Hle & Hfields).
    split; [lia |].
    intros [| f] Hf; [lia |].
    cbn [readFields]. rewrite Hn, (Hkey f) by lia. cbn [mbind option_bind].
    rewrite (Hvalue f) by lia. cbn [mbind option_bind].
    rewrite (Hfields f) by lia. reflexivity.
Qed.

(** The fuel of [cborDecode] is enough: if any amount of fuel reads the
    buffer as exactly one item, [cborDecode] returns that item. *)
Lemma cborDecode_fuel fuel buffer v :
  readItem fuel buffer = Some (v, []) -> cborDecode buffer = Some v.
Proof.
  intros Hread. unfold cborDecode.
  destruct (readItem_adequate fuel) as (Hitem & _).
  destruct (Hitem _ _ _ Hread) as (_ & Hmore).
  rewrite Hmore; [reflexivity |]. cbn [length]. lia.
Qed.


(** The padding loop has exited after at most three rounds. *)
Lemma pad_exits (s : string) : String.length (Decoder.pad 3 s) mod 4 = 0.
Proof.
  assert (Hlen : forall t, String.length (t +:+ "=") = S (String.length t)).
  { induction t as [| c t IH]; [reflexivity |].
    change (String c t +:+ "=") with (String c (t +:+ "=")).
    cbn [String.length]. f_equal. exact IH. }
  cbn [Decoder.pad]. rewrite !Hlen.
  repeat match goal with
    | |- context [?n mod 4 =? 0] =>
        let H := fresh "Hmod" in
        destruct (n mod 4 =? 0) eqn:H;
        [apply Nat.eqb_eq in H | apply Nat.eqb_neq in H]
    end;
    rewrite ?Hlen; try assumption.
  exfalso. revert Hmod Hmod0 Hmod1 Hmod2.
  generalize (String.length s). intros n.
  pose proof (Nat.div_mod_eq n 4) as Hn.
  pose proof (Nat.mod_upper_bound n 4 ltac:(lia)) as Hr.
  replace (S n) with (n mod 4 + 1 + n / 4 * 4) by lia.
  replace (S (S (n mod 4 + 1 + n / 4 * 4)))
    with (n mod 4 + 3 + n / 4 * 4) by lia.
  replace (S (n mod 4 + 1 + n / 4 * 4))
    with (n mod 4 + 2 + n / 4 * 4) by lia.
  rewrite !Nat.Div0.mod_add.
  destruct (n mod 4) as [| [| [| [| r]]]]; cbn; intros; lia.
Qed.

(** ** Round trip *)

Lemma underscoreRegistries_reachable : reachable underscoreRegistries.
Proof.
  apply (reach_registerParser
           (mkRegistries (typeRegistry underscoreRegistries) ∅) _
           "o_g" "1.0.0" StringParser); [| vm_compute; reflexivity].
  apply (reach_registerType noRegistrations _ "Organization" "o_g");
    [apply reach_init | vm_compute; reflexivity].
Qed.

(** C1, as stated, fails.  Under a prefix that contains the separator the
    decoder splits the identifier inside the prefix; and the empty string, a
    non-null value that [StringParser] formats and parses back exactly, is
    refused by the encoder. *)
Lemma round_trip_fails :
  (reachable underscoreRegistries /\
   TypeRegistry.getPrefix (typeRegistry underscoreRegistries) "Organization"
     = Own "o_g" /\
   stored underscoreRegistries "o_g" "1.0.0" = Some StringParser /\
   format StringParser (VStr "abc") = Some (VStr "abc") /\
   parse StringParser (VStr "abc") = Some (VStr "abc") /\
   ~ roundTrips underscoreRegistries
       (mkGlobalId "Organization" "1.0.0" (VStr "abc"))) /\
  (reachable organizationRegistries /\
   TypeRegistry.getPrefix (typeRegistry organizationRegistries) "Organization"
     = Own "org" /\
   stored organizationRegistries "org" "1.0.0" = Some StringParser /\
   format StringParser (VStr "") = Some (VStr "") /\
   parse StringParser (VStr "") = Some (VStr "") /\
   VStr "" <> VNull /\
   ~ roundTrips organizationRegistries
       (mkGlobalId "Organization" "1.0.0" (VStr ""))).
Proof.
  split.
  - split; [apply underscoreRegistries_reachable |].
    do 4 (split; [reflexivity |]).
    intros (encoded & Hencode & Hdecode).
    vm_compute in Hencode. injection Hencode as <-.
    vm_compute in Hdecode. discriminate Hdecode.
  - split; [apply organizationRegistries_reachable |].
    do 4 (split; [reflexivity |]).
    split; [discriminate |].
    intros (encoded & Hencode & _).
    vm_compute in Hencode. discriminate Hencode.
Qed.

(** C1, amended: for every type with a non-empty name registered under a
    non-empty prefix that contains no separator, every version for which a
    parser is registered under that prefix, and every truthy value that the
    parser formats to a string which it parses back to the value,
    [decode(encode(GlobalId(type, version, value)))] returns a GlobalId with
    the same type, version and value.  (The formatted value and the version
    are shorter than 2^32 characters, as every JavaScript string is.) *)
Theorem encode_decode_round_trip
    st type version value prefix parser formatted :
  reachable st ->
  type <> EmptyString ->
  TypeRegistry.getPrefix (typeRegistry st) type = Own prefix ->
  prefix <> EmptyString ->
  indexOf "_" prefix = None ->
  stored st prefix version = Some parser ->
  truthy value = true ->
  format parser value = Some (VStr formatted) ->
  parse parser (VStr formatted) = Some value ->
  (N.of_nat (String.length formatted) < 4294967296)%N ->
  (N.of_nat (String.length version) < 4294967296)%N ->
  roundTrips st (mkGlobalId type version value).
Proof.
  intros Hreach Htype Hprefix Hnonempty Hseparator Hstored Hvalue Hformat
    Hparse Hlformatted Hlversion.
  pose proof (getParser_stored st prefix version parser Hstored) as Hget.
  eexists. split.
  - unfold Encoder.encode. cbn [getType getVersion getValue].
    rewrite Hprefix, (found_Own prefix Hnonempty), Hvalue. cbn [negb toText].
    rewrite Hget. run_result. rewrite Hformat. run_result. reflexivity.
  - unfold Decoder.decode.
    rewrite (splitByFirstOccurrence_prefixed _ _ Hseparator).
    rewrite restore_sanitized, Buffer_from_base64_toBase64.
    rewrite cborDecode_envelope by assumption. run_result.
    cbn [Decoder.destructure nth]. run_result.
    rewrite Hget. run_result. rewrite Hparse. run_result.
    rewrite (reachable_namedTypesMirrored st Hreach type prefix Hprefix Htype).
    rewrite (found_Own type Htype). reflexivity.
Qed.

Lemma encode_decode_round_trip_witness :
  reachable organizationRegistries /\
  "Organization" <> EmptyString /\
  TypeRegistry.getPrefix (typeRegistry organizationRegistries) "Organization"
    = Own "org" /\
  "org" <> EmptyString /\
  indexOf "_" "org" = None /\
  stored organizationRegistries "org" "1.0.0" = Some StringParser /\
  truthy (VStr "abc") = true /\
  format StringParser (VStr "abc") = Some (VStr "abc") /\
  parse StringParser (VStr "abc") = Some (VStr "abc") /\
  roundTrips organizationRegistries
    (mkGlobalId "Organization" "1.0.0" (VStr "abc")).
Proof.
  split; [apply organizationRegistries_reachable |].
  split; [discriminate |].
  split; [reflexivity |].
  split; [discriminate |].
  do 5 (split; [reflexivity |]).
  apply (encode_decode_round_trip organizationRegistries "Organization"
           "1.0.0" (VStr "abc") "org" StringParser "abc");
    try reflexivity; try discriminate.
  apply organizationRegistries_reachable.
Defined.

(** * Further properties *)

(** ** Registration *)

Lemma registerType_Err type prefix st e :
  registerType type prefix st = Err e -> e = DuplicateRegistration.
Proof.
  unfold registerType, TypeRegistry.registerType.
  destruct (_ || _); cbn; congruence.
Qed.

(** X1: [registerType(type, prefix)] throws, always with "Type or prefix is
    already registered.", exactly when the lookup of [type] in the one table
    or of [prefix] in the other finds something truthy: a non-empty string
    registered before, or the member every object inherits under that name
    ([constructor], [toString], [__proto__], ...).  When it returns,
    [getPrefix(type)] is [prefix], [getType(prefix)] is [type], every other
    lookup is as before and the parser table is untouched. *)
Theorem registerType_spec st type prefix :
  (registerType type prefix st = Err DuplicateRegistration <->
   (exists p, TypeRegistry.getPrefix (typeRegistry st) type = Own p
              /\ p <> EmptyString) \/
   (exists name, TypeRegistry.getPrefix (typeRegistry st) type = Member name) \/
   (exists t, TypeRegistry.getType (typeRegistry st) prefix = Own t
              /\ t <> EmptyString) \/
   (exists name, TypeRegistry.getType (typeRegistry st) prefix = Member name)) /\
  (forall e, registerType type prefix st = Err e -> e = DuplicateRegistration) /\
  (forall st',
      registerType type prefix st = Ok st' ->
      TypeRegistry.getPrefix (typeRegistry st') type = Own prefix /\
      TypeRegistry.getType (typeRegistry st') prefix = Own type /\
      (forall t, t <> type ->
                 TypeRegistry.getPrefix (typeRegistry st') t
                 = TypeRegistry.getPrefix (typeRegistry st) t) /\
      (forall p, p <> prefix ->
                 TypeRegistry.getType (typeRegistry st') p
                 = TypeRegistry.getType (typeRegistry st) p) /\
      parsers st' = parsers st).
Proof.
  split; [| split].
  - assert (Hguard :
      registerType type prefix st = Err DuplicateRegistration <->
      found (TypeRegistry.getPrefix (typeRegistry st) type) = true \/
      found (TypeRegistry.getType (typeRegistry st) prefix) = true).
    { unfold registerType, TypeRegistry.registerType, TypeRegistry.getPrefix,
        TypeRegistry.getType.
      destruct (found (property (TypeRegistry.typeMap (typeRegistry st)) type));
        destruct (found (property (TypeRegistry.prefixMap (typeRegistry st))
                           prefix));
        cbn; split; auto; try discriminate; intros [? | ?]; discriminate. }
    rewrite Hguard, !found_true. tauto.
  - apply registerType_Err.
  - intros st' Hcall. apply registerType_Ok in Hcall as (_ & _ & ->).
    unfold TypeRegistry.getPrefix, TypeRegistry.getType. cbn.
    split; [apply property_insert_eq |].
    split; [apply property_insert_eq |].
    split; [intros t Ht; apply property_insert_ne; congruence |].
    split; [intros p Hp; apply property_insert_ne; congruence | reflexivity].
Qed.

(** A fresh type and prefix, a registered type, a registered prefix, and
    two names that no one registered but every object inherits. *)
Lemma registerType_spec_witness :
  registerType "User" "usr" organizationRegistries
    <> Err DuplicateRegistration /\
  registerType "Organization" "o" organizationRegistries
    = Err DuplicateRegistration /\
  registerType "Team" "org" organizationRegistries
    = Err DuplicateRegistration /\
  registerType "constructor" "c" noRegistrations
    = Err DuplicateRegistration /\
  registerType "T" "__proto__" noRegistrations
    = Err DuplicateRegistration.
Proof.
  split; [| split; [| split; [| split]]].
  - intros Hcall.
    apply (proj1 (registerType_spec organizationRegistries "User" "usr"))
      in Hcall.
    destruct Hcall as [(p & Hp & _) | [(name & Hname)
                      | [(t & Ht & _) | (name & Hname)]]]; discriminate.
  - apply (proj1 (registerType_spec organizationRegistries "Organization" "o")).
    left. exists "org". split; [reflexivity | discriminate].
  - apply (proj1 (registerType_spec organizationRegistries "Team" "org")).
    right. right. left. exists "Organization".
    split; [reflexivity | discriminate].
  - apply (proj1 (registerType_spec noRegistrations "constructor" "c")).
    right. left. exists "constructor". reflexivity.
  - apply (proj1 (registerType_spec noRegistrations "T" "__proto__")).
    right. right. right. exists "__proto__". reflexivity.
Defined.

(** ** Registrations are never lost *)

(** What a lookup has found, it finds after every further registration. *)
Lemma registerType_keeps_prefix st st' type prefix t :
  registerType type prefix st = Ok st' ->
  found (TypeRegistry.getPrefix (typeRegistry st) t) = true ->
  TypeRegistry.getPrefix (typeRegistry st') t
  = TypeRegistry.getPrefix (typeRegistry st) t.
Proof.
  intros Hcall Ht.
  apply registerType_Ok in Hcall as (Hfree & _ & ->). cbn.
  unfold TypeRegistry.getPrefix in *. cbn.
  destruct (decide (type = t)) as [-> | Hne]; [congruence |].
  apply property_insert_ne. assumption.
Qed.

Lemma registerType_keeps_type st st' type prefix p :
  registerType type prefix st = Ok st' ->
  found (TypeRegistry.getType (typeRegistry st) p) = true ->
  TypeRegistry.getType (typeRegistry st') p
  = TypeRegistry.getType (typeRegistry st) p.
Proof.
  intros Hcall Hp.
  apply registerType_Ok in Hcall as (_ & Hfree & ->). cbn.
  unfold TypeRegistry.getType in *. cbn.
  destruct (decide (prefix = p)) as [-> | Hne]; [congruence |].
  apply property_insert_ne. assumption.
Qed.

Lemma registerParser_keeps_slot st st' type version parser p v old :
  ParserRegistry.registerParser type version parser st = Ok st' ->
  stored st p v = Some old ->
  stored st' p v = Some (if decide (p = type /\ v = version) then parser else old).
Proof.
  intros Hcall Hold. apply registerParser_Ok in Hcall as (_ & _ & ->).
  destruct (decide (p = type /\ v = version)) as [[-> ->] | Hne].
  - apply stored_registerParser_same.
  - rewrite stored_registerParser_other; [exact Hold |].
    destruct (decide (p = type)); [right | left]; intuition congruence.
Qed.

Lemma evolves_keeps_prefix st st' t :
  evolves st st' ->
  found (TypeRegistry.getPrefix (typeRegistry st) t) = true ->
  TypeRegistry.getPrefix (typeRegistry st') t
  = TypeRegistry.getPrefix (typeRegistry st) t.
Proof.
  induction 1 as [| st st' st'' type prefix _ IH Hcall
                  | st st' st'' type version parser _ IH Hcall];
    intros Ht; [reflexivity | |].
  - rewrite <- (IH Ht). eapply registerType_keeps_prefix; [exact Hcall |].
    rewrite (IH Ht). exact Ht.
  - apply registerParser_Ok in Hcall as (_ & _ & ->). cbn. auto.
Qed.

Lemma evolves_keeps_type st st' p :
  evolves st st' ->
  found (TypeRegistry.getType (typeRegistry st) p) = true ->
  TypeRegistry.getType (typeRegistry st') p
  = TypeRegistry.getType (typeRegistry st) p.
Proof.
  induction 1 as [| st st' st'' type prefix _ IH Hcall
                  | st st' st'' type version parser _ IH Hcall];
    intros Hp; [reflexivity | |].
  - rewrite <- (IH Hp). eapply registerType_keeps_type; [exact Hcall |].
    rewrite (IH Hp). exact Hp.
  - apply registerParser_Ok in Hcall as (_ & _ & ->). cbn. auto.
Qed.

Lemma evolves_keeps_slot st st' p v parser :
  evolves st st' ->
  stored st p v = Some parser ->
  exists parser', stored st' p v = Some parser'.
Proof.
  induction 1 as [| st st' st'' type prefix _ IH Hcall
                  | st st' st'' type version parser0 _ IH Hcall];
    intros Hslot; [eauto | |].
  - apply registerType_Ok in Hcall as (_ & _ & ->). unfold stored. cbn.
    apply IH. exact Hslot.
  - destruct (IH Hslot) as (old & Hold).
    eexists. eapply registerParser_keeps_slot; eauto.
Qed.

(** X2: the registries only grow: whatever calls follow, a type keeps its
    non-empty prefix, a prefix keeps its non-empty type, and a (prefix,
    version) pair that has a parser still has one (possibly a newer one). *)
Theorem registrations_persist st st' :
  evolves st st' ->
  (forall type prefix,
      TypeRegistry.getPrefix (typeRegistry st) type = Own prefix ->
      prefix <> EmptyString ->
      TypeRegistry.getPrefix (typeRegistry st') type = Own prefix) /\
  (forall prefix type,
      TypeRegistry.getType (typeRegistry st) prefix = Own type ->
      type <> EmptyString ->
      TypeRegistry.getType (typeRegistry st') prefix = Own type) /\
  (forall prefix version parser,
      stored st prefix version = Some parser ->
      exists parser', stored st' prefix version = Some parser').
Proof.
  intros Hev. split; [| split].
  - intros t p Ht Hp. rewrite <- Ht. apply evolves_keeps_prefix; [exact Hev |].
    rewrite Ht. apply found_Own. exact Hp.
  - intros p t Hp Ht. rewrite <- Hp. apply evolves_keeps_type; [exact Hev |].
    rewrite Hp. apply found_Own. exact Ht.
  - intros p v parser. apply evolves_keeps_slot. exact Hev.
Qed.

Lemma registrations_persist_witness :
  evolves organizationTypeOnly organizationRegistries /\
  TypeRegistry.getPrefix (typeRegistry organizationRegistries) "Organization"
    = Own "org".
Proof.
  assert (Hev : evolves organizationTypeOnly organizationRegistries).
  { apply (evolves_registerParser _ organizationTypeOnly _ "org" "1.0.0"
             StringParser); [apply evolves_refl | vm_compute; reflexivity]. }
  split; [exact Hev |].
  apply (proj1 (registrations_persist organizationTypeOnly
                  organizationRegistries Hev) "Organization" "org");
    [reflexivity | discriminate].
Defined.

(** ** Identifiers survive later registrations *)

(** X3: as long as no parser is replaced, registering further types and
    parsers changes neither the string an identifier is encoded to nor the
    identifier a string is decoded to. *)
Theorem later_registrations_keep_ids st st' :
  evolves st st' ->
  (forall prefix version parser,
      stored st prefix version = Some parser ->
      stored st' prefix version = Some parser) ->
  (forall id encoded,
      Encoder.encode st id = Ok encoded -> Encoder.encode st' id = Ok encoded) /\
  (forall encoded id,
      Decoder.decode st encoded = Ok id -> Decoder.decode st' encoded = Ok id).
Proof.
  intros Hev Hkept. split.
  - intros id encoded. unfold Encoder.encode.
    destruct (found (TypeRegistry.getPrefix (typeRegistry st) (getType id)))
      eqn:Hfound; cbn [negb]; [| discriminate].
    rewrite (evolves_keeps_prefix st st' _ Hev Hfound), Hfound. cbn [negb].
    destruct (negb (truthy (getValue id))); [discriminate |].
    destruct (ParserRegistry.getParser st _ (VStr (getVersion id)))
      as [parser | e] eqn:Hget; run_result; [| discriminate].
    apply getParser_Ok in Hget as (v & [= <-] & Hstored).
    rewrite (getParser_stored st' _ _ parser (Hkept _ _ _ Hstored)).
    run_result. auto.
  - intros encoded id. unfold Decoder.decode.
    destruct (Decoder.splitByFirstOccurrence encoded "_")
      as [| prefix [| payload rest]]; try discriminate.
    destruct (cborDecode _) as [decoded |]; run_result; [| discriminate].
    destruct (Decoder.destructure decoded) as [[data version] |]; run_result;
      [| discriminate].
    destruct (ParserRegistry.getParser st prefix version) as [parser | e]
      eqn:Hget; run_result; [| discriminate].
    apply getParser_Ok in Hget as (v & -> & Hstored).
    rewrite (getParser_stored st' prefix _ parser (Hkept _ _ _ Hstored)).
    run_result.
    destruct (parse parser data); run_result; [| discriminate].
    destruct (found (TypeRegistry.getType (typeRegistry st) prefix))
      eqn:Hfound; cbn [negb]; [| discriminate].
    rewrite (evolves_keeps_type st st' _ Hev Hfound), Hfound. auto.
Qed.

Lemma later_registrations_keep_ids_witness :
  exists st',
    evolves organizationRegistries st' /\
    TypeRegistry.getPrefix (typeRegistry st') "User" = Own "usr" /\
    Encoder.encode st' (mkGlobalId "Organization" "1.0.0" (VStr "abc"))
      = Ok "org_gmNhYmNlMS4wLjA" /\
    Decoder.decode st' "org_gmNhYmNlMS4wLjA"
      = Ok (mkGlobalId "Organization" "1.0.0" (VStr "abc")).
Proof.
  set (st' := {| typeRegistry :=
                   {| TypeRegistry.typeMap :=
                        <["User" := "usr"]>
                          (TypeRegistry.typeMap (typeRegistry organizationRegistries));
                      TypeRegistry.prefixMap :=
                        <["usr" := "User"]>
                          (TypeRegistry.prefixMap (typeRegistry organizationRegistries)) |};
                 parsers := parsers organizationRegistries |}).
  assert (Hev : evolves organizationRegistries st').
  { apply (evolves_registerType _ organizationRegistries _ "User" "usr");
      [apply evolves_refl | vm_compute; reflexivity]. }
  exists st'. split; [exact Hev |]. split; [vm_compute; reflexivity |].
  split.
  - apply (proj1 (later_registrations_keep_ids organizationRegistries st' Hev
                    (fun _ _ _ H => H))).
    vm_compute. reflexivity.
  - apply (proj2 (later_registrations_keep_ids organizationRegistries st' Hev
                    (fun _ _ _ H => H))).
    vm_compute. reflexivity.
Defined.

(** ** Encoder: errors of the parser step *)

(** X5: in a reachable state, for a type registered under a non-empty
    prefix and a truthy value, [encode] fails with UnknownType when the prefix
    has no parser at all, with UnknownVersion when it has parsers but none for
    the identifier's version, and with the parser's own exception when
    [format] throws; it produces no string in any of these cases. *)
Theorem encode_parser_errors st id prefix :
  reachable st ->
  TypeRegistry.getPrefix (typeRegistry st) (getType id) = Own prefix ->
  prefix <> EmptyString ->
  truthy (getValue id) = true ->
  (parsers st !! prefix = None -> Encoder.encode st id = Err UnknownType) /\
  (forall versionedParsers,
      parsers st !! prefix = Some versionedParsers ->
      versionedParsers !! getVersion id = None ->
      Encoder.encode st id = Err UnknownVersion) /\
  (forall parser,
      stored st prefix (getVersion id) = Some parser ->
      format parser (getValue id) = None ->
      Encoder.encode st id = Err ParserFailure).
Proof.
  intros Hreach Hprefix Hne Hvalue.
  destruct (proj1 (reachable_plainNames st Hreach) _ _ Hprefix)
    as (_ & Hplain).
  unfold Encoder.encode.
  rewrite Hprefix, (found_Own prefix Hne), Hvalue. cbn [negb toText].
  split; [| split].
  - intros Hnone. unfold ParserRegistry.getParser.
    rewrite Hnone, Hplain. reflexivity.
  - intros m Hm Hversion. unfold ParserRegistry.getParser.
    rewrite Hm. cbn [ParserRegistry.Map_get]. rewrite Hversion. reflexivity.
  - intros parser Hstored Hformat.
    rewrite (getParser_stored st prefix _ parser Hstored). run_result.
    rewrite Hformat. reflexivity.
Qed.

Lemma throwingRegistries_reachable : reachable throwingRegistries.
Proof.
  apply (reach_registerParser organizationTypeOnly _ "org" "1.0.0"
           throwingParser);
    [apply organizationTypeOnly_reachable | vm_compute; reflexivity].
Qed.

Lemma encode_parser_errors_witness :
  reachable organizationRegistries /\
  TypeRegistry.getPrefix (typeRegistry organizationRegistries) "Organization"
    = Own "org" /\
  "org" <> EmptyString /\
  truthy (VStr "abc") = true /\
  Encoder.encode organizationRegistries
    (mkGlobalId "Organization" "99.99.99" (VStr "abc")) = Err UnknownVersion /\
  Encoder.encode organizationTypeOnly
    (mkGlobalId "Organization" "1.0.0" (VStr "abc")) = Err UnknownType /\
  Encoder.encode throwingRegistries
    (mkGlobalId "Organization" "1.0.0" (VStr "abc")) = Err ParserFailure.
Proof.
  assert (Horg : "org" <> EmptyString) by discriminate.
  split; [apply organizationRegistries_reachable |].
  split; [reflexivity |]. split; [exact Horg |]. split; [reflexivity |].
  split; [| split].
  - apply (proj1 (proj2 (encode_parser_errors organizationRegistries
             (mkGlobalId "Organization" "99.99.99" (VStr "abc")) "org"
             organizationRegistries_reachable eq_refl Horg eq_refl))
             {[ "1.0.0" := StringParser ]});
      reflexivity.
  - apply (proj1 (encode_parser_errors organizationTypeOnly
             (mkGlobalId "Organization" "1.0.0" (VStr "abc")) "org"
             organizationTypeOnly_reachable eq_refl Horg eq_refl)).
    reflexivity.
  - apply (proj2 (proj2 (encode_parser_errors throwingRegistries
             (mkGlobalId "Organization" "1.0.0" (VStr "abc")) "org"
             throwingRegistries_reachable eq_refl Horg eq_refl))
             throwingParser);
      reflexivity.
Defined.

(** ** Decoder: splitting *)

(** X8: [splitByFirstOccurrence] returns the input alone when it holds no
    separator; otherwise it returns the part before the first separator,
    which holds none, and everything after it, and the two parts joined by
    the separator are the input. *)
Theorem splitByFirstOccurrence_spec input separator :
  (indexOf separator input = None /\
   Decoder.splitByFirstOccurrence input separator = [input]) \/
  (exists before after,
      input = before +:+ String separator after /\
      indexOf separator before = None /\
      Decoder.splitByFirstOccurrence input separator = [before; after]).
Proof.
  unfold Decoder.splitByFirstOccurrence.
  induction input as [| c input IH]; [left; split; reflexivity |].
  cbn [indexOf].
  destruct (Ascii.eqb c separator) eqn:Hc.
  - apply Ascii.eqb_eq in Hc as ->. right.
    exists EmptyString, input. repeat split; reflexivity.
  - destruct IH as [(Hnone & _) | (before & after & -> & Hbefore & Hsplit)].
    + left. rewrite Hnone. split; reflexivity.
    + right. exists (String c before), after.
      split; [reflexivity |].
      split; [cbn [indexOf]; rewrite Hc, Hbefore; reflexivity |].
      destruct (indexOf separator (before +:+ String separator after))
        as [i |]; [| discriminate].
      cbn [fmap option_fmap option_map].
      injection Hsplit as Hb Ha.
      change (String c before +:+ String separator after)
        with (String c (before +:+ String separator after)).
      cbn [sliceTo sliceFrom Nat.add]. rewrite Hb, Ha. reflexivity.
Qed.

(** X9: a string without separator, and a string that ends right after its
    first separator, are both refused with MalformedPayload, whatever the
    registries hold. *)
Theorem decode_without_payload st encodedId :
  (indexOf "_" encodedId = None ->
   Decoder.decode st encodedId = Err MalformedPayload) /\
  (indexOf "_" encodedId = None ->
   Decoder.decode st (encodedId +:+ "_") = Err MalformedPayload).
Proof.
  split; intros Hnone.
  - unfold Decoder.decode, Decoder.splitByFirstOccurrence.
    rewrite Hnone. reflexivity.
  - unfold Decoder.decode.
    change (encodedId +:+ "_") with (encodedId +:+ "_" +:+ "").
    rewrite (splitByFirstOccurrence_prefixed _ _ Hnone). reflexivity.
Qed.

Lemma decode_without_payload_witness :
  indexOf "_" "invalidType" = None /\
  Decoder.decode organizationRegistries "" = Err MalformedPayload /\
  Decoder.decode organizationRegistries "invalidType_" = Err MalformedPayload.
Proof.
  split; [reflexivity |]. split.
  - apply (proj1 (decode_without_payload organizationRegistries "")).
    reflexivity.
  - apply (proj2 (decode_without_payload organizationRegistries "invalidType")).
    reflexivity.
Defined.

(** ** The payload segment *)

Lemma b64char_more (n : N) :
  (n < 64)%N ->
  urlSafeChar (substitute "/" "_" (substitute "+" "-" (b64char n))) = true /\
  substitute "_" "/" (substitute "-" "+" (b64char n)) = b64char n.
Proof.
  intros Hn.
  assert (Hk : exists k, k < 64 /\ n = N.of_nat k)
    by (exists (N.to_nat n); lia).
  destruct Hk as (k & Hk & ->). clear Hn.
  do 64 (destruct k as [| k]; [vm_compute; auto |]).
  lia.
Qed.

(** Names every base64 digit of the goal, with all that is known of it. *)
Ltac name_digits_more :=
  repeat match goal with
    | |- context [b64char ?n] =>
        let H := fresh "Hdigit" in
        let H' := fresh "Hmore" in
        pose proof (b64char_digit n ltac:(lia_div)) as H;
        pose proof (b64char_more n ltac:(lia_div)) as H';
        cbv beta zeta delta [digitFacts] in H;
        destruct H as (_ & _ & ? & ?); destruct H' as (? & ?);
        generalize dependent (b64char n); intros ? ? ? ? ?
    end.

Lemma sanitized_urlSafe (buffer : list byte) :
  allChars urlSafeChar
    (stripTrailing "="
       (replaceAll "/" "_" (replaceAll "+" "-" (toBase64 buffer)))) = true.
Proof.
  induction buffer as [| a | a b | a b c rest IH] using list_ind3.
  - reflexivity.
  - pose proof (to_N_lt a). cbn [toBase64]. name_digits_more.
    cbn [replaceAll]. rewrite !stripTrailing_cons by assumption.
    cbn [replaceAll stripTrailing substitute Ascii.eqb Bool.eqb allChars].
    repeat match goal with H : urlSafeChar _ = true |- _ => rewrite H; clear H end.
    reflexivity.
  - pose proof (to_N_lt a). pose proof (to_N_lt b). cbn [toBase64].
    name_digits_more.
    cbn [replaceAll]. rewrite !stripTrailing_cons by assumption.
    cbn [replaceAll stripTrailing substitute Ascii.eqb Bool.eqb allChars].
    repeat match goal with H : urlSafeChar _ = true |- _ => rewrite H; clear H end.
    reflexivity.
  - pose proof (to_N_lt a). pose proof (to_N_lt b). pose proof (to_N_lt c).
    cbn [toBase64]. name_digits_more.
    cbn [replaceAll]. rewrite !stripTrailing_cons by assumption.
    cbn [allChars]. rewrite IH.
    repeat match goal with H : urlSafeChar _ = true |- _ => rewrite H; clear H end.
    reflexivity.
Qed.

Lemma restore_standard (buffer : list byte) :
  Decoder.pad 3 (replaceAll "_" "/" (replaceAll "-" "+" (toBase64 buffer)))
  = toBase64 buffer.
Proof.
  induction buffer as [| a | a b | a b c rest IH] using list_ind3.
  - reflexivity.
  - pose proof (to_N_lt a). cbn [toBase64]. name_digits_more.
    cbn [replaceAll substitute Ascii.eqb Bool.eqb].
    repeat match goal with
      | H : substitute _ _ (substitute _ _ ?c) = ?c |- _ => rewrite H; clear H
      end.
    reflexivity.
  - pose proof (to_N_lt a). pose proof (to_N_lt b). cbn [toBase64].
    name_digits_more.
    cbn [replaceAll substitute Ascii.eqb Bool.eqb].
    repeat match goal with
      | H : substitute _ _ (substitute _ _ ?c) = ?c |- _ => rewrite H; clear H
      end.
    reflexivity.
  - pose proof (to_N_lt a). pose proof (to_N_lt b). pose proof (to_N_lt c).
    cbn [toBase64]. name_digits_more.
    cbn [replaceAll]. rewrite pad_cons4, IH.
    repeat match goal with
      | H : substitute _ _ (substitute _ _ ?c) = ?c |- _ => rewrite H; clear H
      end.
    reflexivity.
Qed.

(** X12: the decoder reads back from the payload text exactly the bytes the
    encoder wrote into it, and it reads the same bytes from their plain
    base64 text, padded and with [+] and [/]: both forms are accepted. *)
Theorem payload_round_trip (buffer : list byte) :
  payloadBuffer
    (stripTrailing "="
       (replaceAll "/" "_" (replaceAll "+" "-" (toBase64 buffer)))) = buffer /\
  payloadBuffer (toBase64 buffer) = buffer.
Proof.
  unfold payloadBuffer. split.
  - rewrite restore_sanitized. apply Buffer_from_base64_toBase64.
  - rewrite restore_standard. apply Buffer_from_base64_toBase64.
Qed.

Lemma payloadBuffer_payloadText (buffer : list byte) :
  payloadBuffer (payloadText buffer) = buffer.
Proof.
  unfold payloadBuffer, payloadText. rewrite restore_sanitized.
  apply Buffer_from_base64_toBase64.
Qed.

(** X6: the string [encode] returns is the text of what the lookup of the
    type found (for a registered type, its prefix), the separator, and a
    payload made of letters, digits, [-] and [_] only: no [+], no [/], no
    padding. *)
Theorem encode_url_safe st id encoded :
  Encoder.encode st id = Ok encoded ->
  exists payload,
    encoded
    = toText (TypeRegistry.getPrefix (typeRegistry st) (getType id))
        +:+ "_" +:+ payload /\
    allChars urlSafeChar payload = true.
Proof.
  unfold Encoder.encode.
  destruct (negb (found _)); [discriminate |].
  destruct (negb (truthy (getValue id))); [discriminate |].
  destruct (ParserRegistry.getParser st _ (VStr (getVersion id)))
    as [parser | e]; run_result; [| discriminate].
  destruct (format parser (getValue id)) as [formatted |]; run_result;
    [| discriminate].
  intros [= <-].
  exists (payloadText (cborEncode (VArr [formatted; VStr (getVersion id)]))).
  split; [reflexivity |]. apply sanitized_urlSafe.
Qed.

Lemma encode_url_safe_witness :
  Encoder.encode organizationRegistries
    (mkGlobalId "Organization" "1.0.0" (VStr "a?~>"))
    = Ok "org_gmRhP34-ZTEuMC4w" /\
  exists payload,
    "org_gmRhP34-ZTEuMC4w"
    = toText (TypeRegistry.getPrefix (typeRegistry organizationRegistries)
                "Organization") +:+ "_" +:+ payload /\
    allChars urlSafeChar payload = true.
Proof.
  split; [vm_compute; reflexivity |].
  apply (encode_url_safe organizationRegistries
           (mkGlobalId "Organization" "1.0.0" (VStr "a?~>"))).
  vm_compute. reflexivity.
Defined.

(** ** The padding loop *)

Lemma append_assoc (s t u : string) : (s +:+ t) +:+ u = s +:+ (t +:+ u).
Proof.
  induction s as [| c s IH]; [reflexivity |].
  change ((String c s +:+ t) +:+ u) with (String c ((s +:+ t) +:+ u)).
  change (String c s +:+ (t +:+ u)) with (String c (s +:+ (t +:+ u))).
  f_equal. exact IH.
Qed.

Lemma append_empty_r (s : string) : s +:+ "" = s.
Proof.
  induction s as [| c s IH]; [reflexivity |].
  change (String c s +:+ "") with (String c (s +:+ "")). f_equal. exact IH.
Qed.

Lemma length_append (s t : string) :
  String.length (s +:+ t) = String.length s + String.length t.
Proof.
  induction s as [| c s IH]; [reflexivity |].
  change (String c s +:+ t) with (String c (s +:+ t)).
  cbn [String.length]. rewrite IH. reflexivity.
Qed.

(** X13: the padding loop appends the least number of [=], at most three, that
    makes the length a multiple of four; a string whose length already is
    one is left as it is. *)
Theorem pad_spec (s : string) :
  exists k,
    k <= 3 /\
    Decoder.pad 3 s = s +:+ copies k "=" /\
    (String.length s + k) mod 4 = 0 /\
    (forall j, j < k -> (String.length s + j) mod 4 <> 0).
Proof.
  pose proof (pad_exits s) as Hexit. revert Hexit. cbn [Decoder.pad].
  destruct (String.length s mod 4 =? 0) eqn:H0.
  { intros _. apply Nat.eqb_eq in H0. exists 0.
    rewrite append_empty_r, Nat.add_0_r.
    repeat split; [lia | assumption | lia]. }
  apply Nat.eqb_neq in H0.
  destruct (String.length (s +:+ "=") mod 4 =? 0) eqn:H1.
  { intros Hexit. exists 1. rewrite length_append in Hexit.
    split; [lia |]. split; [reflexivity |]. split; [exact Hexit |].
    intros j Hj. replace j with 0 by lia. rewrite Nat.add_0_r. exact H0. }
  apply Nat.eqb_neq in H1. rewrite length_append in H1.
  destruct (String.length ((s +:+ "=") +:+ "=") mod 4 =? 0) eqn:H2.
  { intros Hexit. exists 2. rewrite append_assoc in Hexit |- *.
    rewrite length_append in Hexit.
    split; [lia |]. split; [reflexivity |]. split; [exact Hexit |].
    intros j Hj. destruct j as [| [| j]]; [| | lia].
    - rewrite Nat.add_0_r. exact H0.
    - exact H1. }
  apply Nat.eqb_neq in H2. rewrite append_assoc, length_append in H2.
  assert (Hsame : forall (b : bool) (t : string), (if b then t else t) = t)
    by (intros [|] t; reflexivity).
  rewrite Hsame.
  intros Hexit. exists 3. rewrite !append_assoc in Hexit |- *.
  rewrite length_append in Hexit.
  split; [lia |]. split; [reflexivity |]. split; [exact Hexit |].
  intros j Hj. destruct j as [| [| [| j]]]; [| | | lia].
  - rewrite Nat.add_0_r. exact H0.
  - exact H1.
  - exact H2.
Qed.

(** ** The two branches of [toBase64] *)

Lemma binary_string (buffer : list byte) (binary : string) :
  fold_left (fun binary b => binary +:+ fromCharCode b) buffer binary
  = binary +:+ string_of_list_byte buffer.
Proof.
  revert binary. induction buffer as [| b buffer IH]; intros binary.
  - cbn. symmetry. apply append_empty_r.
  - cbn [fold_left]. rewrite IH, append_assoc. reflexivity.
Qed.

(** X14: the browser branch, [uint8ArrayToBase64], returns the same text as the
    Node branch, [buffer.toString('base64')]: an identifier does not depend
    on where it was encoded. *)
Theorem uint8ArrayToBase64_toBase64 (buffer : list byte) :
  uint8ArrayToBase64 buffer = toBase64 buffer.
Proof.
  unfold uint8ArrayToBase64, btoa. rewrite binary_string.
  change (EmptyString +:+ string_of_list_byte buffer)
    with (string_of_list_byte buffer).
  rewrite list_byte_of_string_of_list_byte. reflexivity.
Qed.

(** ** The binary codec on all values *)

Lemma Value_nested_ind (P : Value -> Prop) :
  P VUndefined -> P VNull -> (forall b, P (VBool b)) -> (forall z, P (VNum z)) ->
  P VNaN -> (forall s, P (VStr s)) -> (forall b, P (VBytes b)) ->
  (forall items, Forall P items -> P (VArr items)) ->
  (forall fields, Forall (fun kv => P (snd kv)) fields -> P (VObj fields)) ->
  forall v, P v.
Proof.
  intros Hund Hnull Hbool Hnum Hnan Hstr Hbytes Harr Hobj.
  exact (fix F (v : Value) : P v :=
           match v with
           | VUndefined => Hund
           | VNull => Hnull
           | VBool b => Hbool b
           | VNum z => Hnum z
           | VNaN => Hnan
           | VStr s => Hstr s
           | VBytes b => Hbytes b
           | VArr items =>
               Harr items
                 ((fix G (l : list Value) : Forall P l :=
                     match l with
                     | [] => @List.Forall_nil _ _
                     | x :: r => @List.Forall_cons _ _ x r (F x) (G r)
                     end) items)
           | VObj fields =>
               Hobj fields
                 ((fix G (l : list (string * Value))
                     : Forall (fun kv => P (snd kv)) l :=
                     match l with
                     | [] => @List.Forall_nil _ _
                     | kv :: r => @List.Forall_cons _ _ kv r (F (snd kv)) (G r)
                     end) fields)
           end).
Qed.

Lemma head_length major arg : 1 <= length (head major arg).
Proof.
  unfold head.
  repeat match goal with |- context [if ?b then _ else _] => destruct b end;
    cbn [length]; lia.
Qed.

Lemma cborEncode_length v : 1 <= length (cborEncode v).
Proof.
  destruct v as [| | [|] | z | | s | b | items | fields]; cbn [cborEncode];
    try (cbn [length]; lia).
  - destruct (0 <=? z)%Z; apply head_length.
  - unfold encodeText. rewrite length_app. pose proof (head_length 3
      (N.of_nat (String.length s))). lia.
  - rewrite length_app. pose proof (head_length 2 (N.of_nat (length b))). lia.
  - rewrite length_app. pose proof (head_length 4 (N.of_nat (length items))). lia.
Qed.

Lemma readItem_text_fuel fuel s rest :
  (N.of_nat (String.length s) < 4294967296)%N ->
  1 <= fuel ->
  readItem fuel (encodeText s ++ rest) = Some (VStr s, rest).
Proof.
  intros Hlen Hfuel. destruct fuel as [| fuel]; [lia |].
  apply readItem_text. exact Hlen.
Qed.

Lemma codableText_length (s : string) :
  codableText s = true -> (N.of_nat (String.length s) < 4294967296)%N.
Proof.
  unfold codableText. intros H. apply andb_true_iff in H as (H & _).
  apply N.ltb_lt. exact H.
Qed.

Lemma codableKey_length (key : string) :
  codableKey key = true -> (N.of_nat (String.length key) < 4294967296)%N.
Proof.
  unfold codableKey. intros H. apply andb_true_iff in H as (H & _).
  apply andb_true_iff in H as (H & _). apply codableText_length. exact H.
Qed.

(** The head of a map, as the encoder writes it. *)
Lemma readHead_map16 (n : N) (rest : list byte) :
  (n < 65536)%N ->
  readHead (xb9 :: be 2 n ++ rest) = Some (5, n, rest)%N.
Proof.
  intros Hn. cbn [readHead].
  change (Byte.to_N xb9) with 185%N.
  change (185 / 32)%N with 5%N. change (185 mod 32)%N with 25%N.
  change (25 <? 24)%N with false. change (25 =? 24)%N with false.
  change (25 =? 25)%N with true. cbn match.
  rewrite readBE_be. run_option.
  change (256 ^ N.of_nat 2)%N with 65536%N.
  rewrite N.mod_small by assumption. reflexivity.
Qed.

(** The codec reads back every value it can write within its limits. *)
Lemma readItem_cborEncode v :
  codable v = true ->
  forall rest fuel,
    2 * length (cborEncode v) <= fuel ->
    readItem fuel (cborEncode v ++ rest) = Some (v, rest).
Proof.
  induction v as [| | b | z | | s | b | items IH | fields IH]
    using Value_nested_ind; cbn [codable]; intros Hcodable rest fuel Hfuel;
    try discriminate.
  - destruct fuel as [| fuel]; [cbn in Hfuel; lia | reflexivity].
  - destruct fuel as [| fuel]; [cbn in Hfuel; lia | reflexivity].
  - destruct b; (destruct fuel as [| fuel]; [cbn in Hfuel; lia | reflexivity]).
  - apply andb_true_iff in Hcodable as (Hlo & Hhi).
    apply Z.leb_le in Hlo. apply Z.ltb_lt in Hhi.
    pose proof (cborEncode_length (VNum z)) as Hlen.
    destruct fuel as [| fuel]; [lia |].
    cbn [cborEncode readItem].
    destruct (0 <=? z)%Z eqn:Hsign;
      [apply Z.leb_le in Hsign | apply Z.leb_gt in Hsign].
    + rewrite readHead_head by lia. run_option.
      rewrite Z2N.id by lia. reflexivity.
    + rewrite readHead_head by lia. run_option.
      rewrite Z2N.id by lia.
      replace (-1 - (-1 - z))%Z with z by lia. reflexivity.
  - apply codableText_length in Hcodable.
    apply readItem_text_fuel; [assumption |].
    pose proof (cborEncode_length (VStr s)). lia.
  - apply andb_true_iff in Hcodable as (Hcount & Hitems).
    apply N.ltb_lt in Hcount.
    pose proof (head_length 4 (N.of_nat (length items))) as Hhead.
    cbn [cborEncode] in Hfuel |- *. rewrite length_app in Hfuel.
    destruct fuel as [| fuel]; [lia |].
    cbn [readItem]. rewrite <- app_assoc.
    rewrite readHead_head by (assumption || reflexivity). run_option.
    assert (Hread : forall rest fuel,
      2 * length (flat_map cborEncode items) + 1 <= fuel ->
      readItems fuel (N.of_nat (length items))
        (flat_map cborEncode items ++ rest) = Some (items, rest)).
    { clear Hcount Hfuel Hhead fuel rest.
      induction items as [| x items IHitems]; intros rest fuel Hfuel.
      - destruct fuel; reflexivity.
      - apply Forall_cons_iff in IH as (IHx & IH).
        cbn [forallb] in Hitems.
        apply andb_true_iff in Hitems as (Hx & Hitems).
        pose proof (cborEncode_length x) as Hlen.
        cbn [flat_map] in Hfuel |- *. rewrite length_app in Hfuel.
        destruct fuel as [| fuel]; [lia |].
        cbn [readItems length].
        replace (N.of_nat (S (length items)) =? 0)%N with false
          by (symmetry; apply N.eqb_neq; lia).
        rewrite <- app_assoc, (IHx Hx) by lia. run_option.
        replace (N.of_nat (S (length items)) - 1)%N
          with (N.of_nat (length items)) by lia.
        rewrite (IHitems IH Hitems) by lia. reflexivity. }
    rewrite Hread by lia. reflexivity.
  - apply andb_true_iff in Hcodable as (Hcount & Hfields).
    apply andb_true_iff in Hcount as (Hcount & _).
    apply N.ltb_lt in Hcount.
    cbn [cborEncode] in Hfuel |- *. cbn [length] in Hfuel.
    rewrite length_app in Hfuel.
    destruct fuel as [| fuel]; [lia |].
    cbn [readItem]. rewrite <- app_comm_cons, <- app_assoc.
    rewrite readHead_map16 by assumption. run_option.
    set (encodeField := fun kv : string * Value =>
                          let '(k, x) := kv in encodeText k ++ cborEncode x)
      in *.
    assert (Hread : forall rest fuel,
      2 * length (flat_map encodeField fields) + 1 <= fuel ->
      readFields fuel (N.of_nat (length fields))
        (flat_map encodeField fields ++ rest) = Some (fields, rest)).
    { clear Hcount Hfuel fuel rest.
      induction fields as [| [k x] fields IHfields]; intros rest fuel Hfuel.
      - destruct fuel; reflexivity.
      - apply Forall_cons_iff in IH as (IHx & IH). cbn [snd] in IHx.
        cbn [forallb] in Hfields.
        apply andb_true_iff in Hfields as (Hkx & Hfields).
        apply andb_true_iff in Hkx as (Hk & Hx).
        apply codableKey_length in Hk.
        pose proof (cborEncode_length x) as Hlen.
        pose proof (cborEncode_length (VStr k)) as Hlenk.
        cbn [cborEncode] in Hlenk.
        cbn [flat_map] in Hfuel |- *. unfold encodeField at 1 in Hfuel.
        unfold encodeField at 1. rewrite !length_app in Hfuel.
        destruct fuel as [| fuel]; [lia |].
        cbn [readFields length].
        replace (N.of_nat (S (length fields)) =? 0)%N with false
          by (symmetry; apply N.eqb_neq; lia).
        rewrite <- !app_assoc, readItem_text_fuel by (assumption || lia).
        run_option. rewrite (IHx Hx) by lia. run_option.
        replace (N.of_nat (S (length fields)) - 1)%N
          with (N.of_nat (length fields)) by lia.
        rewrite (IHfields IH Hfields) by lia. reflexivity. }
    rewrite Hread by lia. reflexivity.
Qed.

Lemma cborDecode_cborEncode v :
  codable v = true -> cborDecode (cborEncode v) = Some v.
Proof.
  intros Hcodable. apply (cborDecode_fuel (2 * length (cborEncode v))).
  rewrite <- (app_nil_r (cborEncode v)) at 2.
  apply readItem_cborEncode; [assumption | lia].
Qed.

(** ** Truncated and over-long items

    What the decoder reads depends only on the bytes it consumes: the same
    bytes followed by anything else are read the same way. *)







(** ** Decoder: what is checked about the payload *)




(** ** Decoder: errors of the parser step *)





(** ** Distinct identifiers have distinct strings *)

Lemma encode_Ok st id prefix parser formatted encoded :
  TypeRegistry.getPrefix (typeRegistry st) (getType id) = Own prefix ->
  stored st prefix (getVersion id) = Some parser ->
  format parser (getValue id) = Some formatted ->
  Encoder.encode st id = Ok encoded ->
  encoded = prefix +:+ "_" +:+
            payloadText (cborEncode (VArr [formatted; VStr (getVersion id)])).
Proof.
  intros Hprefix Hstored Hformat. unfold Encoder.encode. rewrite Hprefix.
  destruct (negb (found (Own prefix))); [discriminate |].
  destruct (negb (truthy (getValue id))); [discriminate |].
  cbn [toText].
  rewrite (getParser_stored st prefix _ parser Hstored). run_result.
  rewrite Hformat. run_result. intros [= <-]. reflexivity.
Qed.

(** X7: take two identifiers whose types are registered (each has its own
    entry in the type table) under prefixes without separator, and whose
    formatted values and versions the codec reads back as they are.  If
    [encode] maps them to the same string, they have the same prefix, the
    same version and the same formatted value; in a reachable state their
    types, if named, are the same as well.  So identifiers of registered
    types that differ in type, version or formatted value never collide.
    (A type that is not registered but found through [Object.prototype] is
    outside this statement.) *)
Theorem encode_injective
    st id1 id2 prefix1 prefix2 parser1 parser2 formatted1 formatted2 encoded :
  TypeRegistry.getPrefix (typeRegistry st) (getType id1) = Own prefix1 ->
  TypeRegistry.getPrefix (typeRegistry st) (getType id2) = Own prefix2 ->
  indexOf "_" prefix1 = None ->
  indexOf "_" prefix2 = None ->
  stored st prefix1 (getVersion id1) = Some parser1 ->
  stored st prefix2 (getVersion id2) = Some parser2 ->
  format parser1 (getValue id1) = Some formatted1 ->
  format parser2 (getValue id2) = Some formatted2 ->
  codable (VArr [formatted1; VStr (getVersion id1)]) = true ->
  codable (VArr [formatted2; VStr (getVersion id2)]) = true ->
  Encoder.encode st id1 = Ok encoded ->
  Encoder.encode st id2 = Ok encoded ->
  prefix1 = prefix2 /\
  getVersion id1 = getVersion id2 /\
  formatted1 = formatted2 /\
  (reachable st ->
   getType id1 <> EmptyString -> getType id2 <> EmptyString ->
   getType id1 = getType id2).
Proof.
  intros Hp1 Hp2 Hs1 Hs2 Hst1 Hst2 Hf1 Hf2 Hc1 Hc2 He1 He2.
  apply (encode_Ok _ _ _ _ _ _ Hp1 Hst1 Hf1) in He1.
  apply (encode_Ok _ _ _ _ _ _ Hp2 Hst2 Hf2) in He2.
  set (buffer1 := cborEncode (VArr [formatted1; VStr (getVersion id1)])) in *.
  set (buffer2 := cborEncode (VArr [formatted2; VStr (getVersion id2)])) in *.
  set (payload1 := payloadText buffer1) in *.
  set (payload2 := payloadText buffer2) in *.
  pose proof (splitByFirstOccurrence_prefixed prefix1 payload1 Hs1) as Hsplit1.
  pose proof (splitByFirstOccurrence_prefixed prefix2 payload2 Hs2) as Hsplit2.
  rewrite <- He1 in Hsplit1. rewrite <- He2, Hsplit1 in Hsplit2.
  assert (Hprefix : prefix1 = prefix2) by congruence.
  assert (Hpayload : payload1 = payload2) by congruence.
  assert (Hbuffer : buffer1 = buffer2).
  { apply (f_equal payloadBuffer) in Hpayload.
    unfold payload1, payload2 in Hpayload.
    rewrite !payloadBuffer_payloadText in Hpayload.
    exact Hpayload. }
  assert (Hdecoded : cborDecode buffer1 = cborDecode buffer2)
    by (rewrite Hbuffer; reflexivity).
  unfold buffer1, buffer2 in Hdecoded.
  rewrite !cborDecode_cborEncode in Hdecoded by assumption.
  injection Hdecoded as Hformatted Hversion.
  split; [assumption |]. split; [assumption |]. split; [assumption |].
  intros Hreach Hn1 Hn2.
  pose proof (reachable_namedTypesMirrored st Hreach _ _ Hp1 Hn1) as Ht1.
  pose proof (reachable_namedTypesMirrored st Hreach _ _ Hp2 Hn2) as Ht2.
  congruence.
Qed.

(** Two identifiers of different types under the shared prefix [p], one of
    them of the type without name: the same string, the same prefix, version
    and formatted value. *)
Lemma encode_injective_witness :
  Encoder.encode sharedPrefixRegistries (mkGlobalId "" "1.0.0" (VStr "abc"))
    = Ok "p_gmNhYmNlMS4wLjA" /\
  Encoder.encode sharedPrefixRegistries (mkGlobalId "B" "1.0.0" (VStr "abc"))
    = Ok "p_gmNhYmNlMS4wLjA" /\
  "p" = "p" /\ "1.0.0" = "1.0.0" /\ VStr "abc" = VStr "abc".
Proof.
  split; [vm_compute; reflexivity |].
  split; [vm_compute; reflexivity |].
  pose proof (encode_injective sharedPrefixRegistries
                (mkGlobalId "" "1.0.0" (VStr "abc"))
                (mkGlobalId "B" "1.0.0" (VStr "abc"))
                "p" "p" StringParser StringParser (VStr "abc") (VStr "abc")
                "p_gmNhYmNlMS4wLjA"
                eq_refl eq_refl eq_refl eq_refl eq_refl eq_refl eq_refl
                eq_refl eq_refl eq_refl) as H.
  destruct H as (Hp & Hv & Hf & _); [vm_compute; reflexivity .. |].
  auto.
Defined.

(** ** Properties of the compressing revision *)

(** X15: in the compressing revision [encode] looks at the type and at the
    value only.  It fails with UnregisteredType where the lookup of the type
    finds nothing or the empty string.  Where the lookup finds something
    truthy (a non-empty prefix, or for an unregistered type such as
    [constructor] the member every object inherits) it fails with NullValue
    for a falsy value, and otherwise returns the text of what was found, the
    separator and a URL-safe payload, whatever the version is and whatever
    the parser table holds. *)
Theorem compressed_encode_spec zlib types table id :
  (TypeRegistry.getPrefix types (getType id) = Missing \/
   TypeRegistry.getPrefix types (getType id) = Own EmptyString ->
   Compressed.encode zlib (mkRegistries types table) id = Err UnregisteredType) /\
  (found (TypeRegistry.getPrefix types (getType id)) = true ->
   truthy (getValue id) = false ->
   Compressed.encode zlib (mkRegistries types table) id = Err NullValue) /\
  (found (TypeRegistry.getPrefix types (getType id)) = true ->
   truthy (getValue id) = true ->
   exists payload,
     Compressed.encode zlib (mkRegistries types table) id
       = Ok (toText (TypeRegistry.getPrefix types (getType id))
               +:+ "_" +:+ payload) /\
     allChars urlSafeChar payload = true).
Proof.
  unfold Compressed.encode. cbn [typeRegistry].
  split; [| split].
  - intros Hlost. apply found_false in Hlost. rewrite Hlost. reflexivity.
  - intros -> ->. reflexivity.
  - intros -> ->. cbn [negb].
    eexists. split; [reflexivity |]. apply sanitized_urlSafe.
Qed.

(** A registered type with a version that has no parser, and the type
    [constructor] on registries without any registration. *)
Lemma compressed_encode_spec_witness :
  found (TypeRegistry.getPrefix (typeRegistry organizationRegistries)
           "Organization") = true /\
  found (TypeRegistry.getPrefix (typeRegistry noRegistrations) "constructor")
    = true /\
  truthy (VStr "abc") = true /\
  (exists payload,
      Compressed.encode storingZlib
        (mkRegistries (typeRegistry organizationRegistries) ∅)
        (mkGlobalId "Organization" "99.99.99" (VStr "abc"))
        = Ok (toText (TypeRegistry.getPrefix
                        (typeRegistry organizationRegistries) "Organization")
                +:+ "_" +:+ payload) /\
      allChars urlSafeChar payload = true) /\
  (exists payload,
      Compressed.encode storingZlib (mkRegistries TypeRegistry.empty ∅)
        (mkGlobalId "constructor" "1.0.0" (VStr "abc"))
        = Ok (toText (TypeRegistry.getPrefix TypeRegistry.empty "constructor")
                +:+ "_" +:+ payload) /\
      allChars urlSafeChar payload = true) /\
  toText (TypeRegistry.getPrefix TypeRegistry.empty "constructor")
    = "function Object() { [native code] }".
Proof.
  do 3 (split; [reflexivity |]).
  split; [| split; [| reflexivity]].
  - exact (proj2 (proj2 (compressed_encode_spec storingZlib
                           (typeRegistry organizationRegistries) ∅
                           (mkGlobalId "Organization" "99.99.99" (VStr "abc"))))
             eq_refl eq_refl).
  - exact (proj2 (proj2 (compressed_encode_spec storingZlib
                           TypeRegistry.empty ∅
                           (mkGlobalId "constructor" "1.0.0" (VStr "abc"))))
             eq_refl eq_refl).
Defined.

(** What the compressing decoder does with a string the compressing
    encoder made. *)
Lemma compressed_decode_encode zlib st id prefix :
  (forall data,
      brotliDecompressSync zlib (brotliCompressSync zlib data) = Some data) ->
  TypeRegistry.getPrefix (typeRegistry st) (getType id) = Own prefix ->
  prefix <> EmptyString ->
  indexOf "_" prefix = None ->
  truthy (getValue id) = true ->
  codable (getValue id) = true ->
  codable (VStr (getVersion id)) = true ->
  exists encoded,
    Compressed.encode zlib st id = Ok encoded /\
    Compressed.decode zlib st encoded =
      (parser ← ParserRegistry.getParser st prefix (VStr (getVersion id));
       parsedValue ← orThrow ParserFailure (parse parser (getValue id));
       let parsedType := TypeRegistry.getType (typeRegistry st) prefix in
       if negb (found parsedType) then Err UnregisteredType
       else
         Ok (Compressed.mkDecoded (toText parsedType) (getVersion id)
               parsedValue)).
Proof.
  intros Hzlib Hprefix Hne Hseparator Hvalue Hcodable Hversion.
  eexists. split.
  - unfold Compressed.encode.
    rewrite Hprefix, (found_Own prefix Hne), Hvalue. reflexivity.
  - unfold Compressed.decode. cbn [toText].
    rewrite (splitByFirstOccurrence_prefixed _ _ Hseparator).
    rewrite restore_sanitized, Buffer_from_base64_toBase64, Hzlib.
    run_result.
    rewrite cborDecode_cborEncode.
    2:{ cbn [codable forallb length map fst distinct existsb] in Hversion |- *.
        change (codableKey "value") with true.
        change (codableKey "_version") with true.
        rewrite Hcodable, Hversion. reflexivity. }
    run_result. reflexivity.
Qed.

(** X16: round trip of the compressing revision: if decompression undoes
    compression, then for a named type registered under a non-empty prefix
    without separator, a version with a parser under that prefix, and a
    truthy value that the codec reads back as it is (see [codable]: no
    floats, no integers outside -2^31 .. 2^32 - 1, no byte arrays, no key
    [__proto__], fewer than 2^16 properties per object),
    [decode(encode(id))] returns the type, the version and what the parser
    makes of the value. *)
Theorem compressed_round_trip zlib st type version value prefix parser parsed :
  (forall data,
      brotliDecompressSync zlib (brotliCompressSync zlib data) = Some data) ->
  reachable st ->
  type <> EmptyString ->
  TypeRegistry.getPrefix (typeRegistry st) type = Own prefix ->
  prefix <> EmptyString ->
  indexOf "_" prefix = None ->
  stored st prefix version = Some parser ->
  truthy value = true ->
  codable value = true ->
  codable (VStr version) = true ->
  parse parser value = Some parsed ->
  exists encoded,
    Compressed.encode zlib st (mkGlobalId type version value) = Ok encoded /\
    Compressed.decode zlib st encoded
      = Ok (Compressed.mkDecoded type version parsed).
Proof.
  intros Hzlib Hreach Htype Hprefix Hne Hseparator Hstored Hvalue Hcodable
    Hversion Hparse.
  destruct (compressed_decode_encode zlib st (mkGlobalId type version value)
              prefix Hzlib Hprefix Hne Hseparator Hvalue Hcodable Hversion)
    as (encoded & Hencode & Hdecode).
  exists encoded. split; [exact Hencode |].
  rewrite Hdecode. cbn [getType getVersion getValue].
  rewrite (getParser_stored st prefix version parser Hstored). run_result.
  rewrite Hparse. run_result.
  rewrite (reachable_namedTypesMirrored st Hreach type prefix Hprefix Htype).
  rewrite (found_Own type Htype). reflexivity.
Qed.

Lemma compressed_round_trip_witness :
  (forall data,
      brotliDecompressSync storingZlib (brotliCompressSync storingZlib data)
      = Some data) /\
  reachable organizationRegistries /\
  codable (VObj [("id", VStr "uuid"); ("systemId", VStr "123")]) = true /\
  exists encoded,
    Compressed.encode storingZlib organizationRegistries
      (mkGlobalId "Organization" "1.0.0"
         (VObj [("id", VStr "uuid"); ("systemId", VStr "123")])) = Ok encoded /\
    Compressed.decode storingZlib organizationRegistries encoded
      = Ok (Compressed.mkDecoded "Organization" "1.0.0"
              (VObj [("id", VStr "uuid"); ("systemId", VStr "123")])).
Proof.
  split; [reflexivity |].
  split; [apply organizationRegistries_reachable |].
  split; [reflexivity |].
  apply (compressed_round_trip storingZlib organizationRegistries
           "Organization" "1.0.0"
           (VObj [("id", VStr "uuid"); ("systemId", VStr "123")])
           "org" StringParser);
    try reflexivity; try discriminate.
  apply organizationRegistries_reachable.
Defined.



(** X18: the compressing [decode] reads the properties [value] and
    [_version] of the decoded object and nothing else.  Whenever the payload
    decompresses to an object (one that the codec reads back as it is) whose
    [_version] is a string with a parser stored under (prefix, version), that
    parser parses its [value], and the prefix resolves to a non-empty type,
    [decode] returns that type, that version and the parsed value, whatever
    other properties the object has and whether or not [encode] wrote it. *)
Theorem compressed_decode_spec
    zlib st prefix payload fields value version parser parsed type :
  indexOf "_" prefix = None ->
  brotliDecompressSync zlib (payloadBuffer payload)
    = Some (cborEncode (VObj fields)) ->
  codable (VObj fields) = true ->
  lastField "value" fields = Some value ->
  lastField "_version" fields = Some (VStr version) ->
  stored st prefix version = Some parser ->
  parse parser value = Some parsed ->
  TypeRegistry.getType (typeRegistry st) prefix = Own type ->
  type <> EmptyString ->
  Compressed.decode zlib st (prefix +:+ "_" +:+ payload)
    = Ok (Compressed.mkDecoded type version parsed).
Proof.
  intros Hprefix Hdata Hcodable Hvalue Hversion Hstored Hparse Htype Hne.
  unfold Compressed.decode.
  rewrite (splitByFirstOccurrence_prefixed _ _ Hprefix).
  fold (payloadBuffer payload). rewrite Hdata. run_result.
  rewrite (cborDecode_cborEncode _ Hcodable). run_result.
  cbn [getProperty]. rewrite Hversion, Hvalue.
  unfold default. cbn [from_option id]. run_result.
  rewrite (getParser_stored st prefix version parser Hstored). run_result.
  rewrite Hparse. run_result.
  rewrite Htype, (found_Own type Hne). reflexivity.
Qed.

(** An object with a third property. *)
Lemma compressed_decode_spec_witness :
  indexOf "_" "org" = None /\
  codable (VObj [("value", VStr "abc"); ("_version", VStr "1.0.0");
                 ("extra", VNum 1)]) = true /\
  Compressed.decode storingZlib organizationRegistries
    ("org" +:+ "_"
       +:+ payloadText
             (cborEncode (VObj [("value", VStr "abc");
                                ("_version", VStr "1.0.0");
                                ("extra", VNum 1)])))
    = Ok (Compressed.mkDecoded "Organization" "1.0.0" (VStr "abc")).
Proof.
  split; [reflexivity |]. split; [reflexivity |].
  apply (compressed_decode_spec storingZlib organizationRegistries "org" _
           [("value", VStr "abc"); ("_version", VStr "1.0.0");
            ("extra", VNum 1)]
           (VStr "abc") "1.0.0" StringParser);
    try reflexivity; try discriminate.
Defined.

(** X19: in a reachable state the compressing decoder, like the current one,
    never fails with UnregisteredType: its last check cannot fire. *)
Theorem compressed_decode_type_lookup zlib st encodedId :
  reachable st ->
  Compressed.decode zlib st encodedId <> Err UnregisteredType.
Proof.
  intros Hreach. unfold Compressed.decode.
  destruct (Decoder.splitByFirstOccurrence encodedId "_")
    as [| prefix [| payload rest]]; try discriminate.
  destruct (brotliDecompressSync zlib _) as [data |]; run_result;
    [| discriminate].
  destruct (cborDecode data) as [decoded |]; run_result; [| discriminate].
  destruct (getProperty decoded "_version") as [v |]; run_result;
    [| discriminate].
  destruct (getProperty decoded "value") as [x |]; run_result;
    [| discriminate].
  destruct (ParserRegistry.getParser st prefix v) as [parser | e] eqn:Hget;
    run_result.
  - destruct (parse parser x); run_result; [| discriminate].
    unfold ParserRegistry.getParser in Hget.
    destruct (parsers st !! prefix) as [m |] eqn:Hm;
      [| destruct (inherited prefix); discriminate].
    destruct (reachable_parsersBacked st Hreach prefix m Hm)
      as (t & -> & Hne).
    rewrite (found_Own t Hne). discriminate.
  - apply getParser_Err in Hget as [-> | [-> | ->]]; discriminate.
Qed.

Lemma compressed_decode_type_lookup_witness :
  reachable organizationRegistries /\
  Compressed.decode storingZlib organizationRegistries "unregisteredType_oA"
    <> Err UnregisteredType.
Proof.
  split; [apply organizationRegistries_reachable |].
  apply (compressed_decode_type_lookup storingZlib organizationRegistries
           "unregisteredType_oA" organizationRegistries_reachable).
Defined.

Lemma registeredNamed_bijection_witness :
  registeredNamed (typeRegistry organizationRegistries) /\
  (TypeRegistry.getPrefix (typeRegistry organizationRegistries) "Organization"
     = Own "org" <->
   TypeRegistry.getType (typeRegistry organizationRegistries) "org"
     = Own "Organization").
Proof.
  assert (Hnamed : registeredNamed (typeRegistry organizationRegistries)).
  { apply (named_register TypeRegistry.empty _ "Organization" "org");
      [apply named_empty | discriminate | discriminate
      | vm_compute; reflexivity]. }
  split; [exact Hnamed |].
  apply (registeredNamed_bijection (typeRegistry organizationRegistries) Hnamed).
Defined.
